(** * byteps/_keras: the distributed optimizer's gradient aggregation

    A shallow embedding of [create_distributed_optimizer] from
    [byteps/_keras/__init__.py]: the wrapper class [_DistributedOptimizer]
    with its two aggregation paths [_push_pull_tf] (direct mode) and
    [_push_pull_xla] (accelerated mode), and [apply_gradients].

    The methods mutate one attribute of [self] and call into collaborators
    (the BytePS collective client, the compression strategy, TensorFlow and
    the wrapped Keras optimizer).  They are modelled in a state-and-error
    monad whose state holds the object and the log of every call made to a
    collaborator; the state survives a raised exception, as the attributes of
    a Python object do. *)

From Stdlib Require Import List ZArith String Bool Lia.
Import ListNotations.
Local Open Scope string_scope.
Local Open Scope list_scope.
Local Open Scope Z_scope.

(** ** Values *)

(** A gradient is a dense [tf.Tensor] or a sparse [tf.IndexedSlices]; an
    absent gradient is Python's [None], here [option]'s [None]. *)
Inductive gradient (tensor slices : Type) : Type :=
| Tensor (t : tensor)
| IndexedSlices (s : slices).
Arguments Tensor {tensor slices} t.
Arguments IndexedSlices {tensor slices} s.

(** The four components of the tuple that [push_pull_xla_handle_out_v2]
    returns, as the untyped entries that [zip] moves around. *)
Inductive entry (tensor tname handle context : Type) : Type :=
| ETensor (t : tensor)
| EName (n : tname)
| EHandle (h : handle)
| EContext (c : context).
Arguments ETensor {tensor tname handle context} t.
Arguments EName {tensor tname handle context} n.
Arguments EHandle {tensor tname handle context} h.
Arguments EContext {tensor tname handle context} c.

(** What the base class's [apply_gradients] does while it runs: it returns,
    or it raises, or it calls back [self._aggregate_gradients] (as
    [OptimizerV2.apply_gradients] of tf.keras does, and the older
    [keras.optimizers.Optimizer] does not) and goes on with what that
    returns.  An exception of the call back is not caught by the base
    class. *)
Inductive base_update (G V F R : Type) : Type :=
| Returns (r : R)
| Raises (f : F)
| Calls_aggregate_gradients (grads_and_vars : list (option G * V))
    (k : list (option G) -> base_update G V F R).
Arguments Returns {G V F R} r.
Arguments Raises {G V F R} f.
Arguments Calls_aggregate_gradients {G V F R} grads_and_vars k.

(** ** Collaborators

    Everything the module imports and calls.  The collective client
    ([byteps.tensorflow]), the compression strategy and the methods of the
    wrapped optimizer class may raise; TensorFlow's [convert_to_tensor] is
    taken as a function.  [name_scope] gives the scope string that
    [tf.name_scope] yields for the request at hand: in graph mode TensorFlow
    makes the string unique at every use, so a statement below relates the
    calls of one request, never the scopes of two. *)
Record Backend : Type := {
  tensor : Type;
  slices : Type;
  tname : Type;
  handle : Type;
  barrier : Type;
  context : Type;
  device : Type;
  compression : Type;
  failure : Type;
  loss : Type;
  params : Type;
  variable : Type;
  update_args : Type;
  update_op : Type;
  (* bps.size() *)
  size : Z;
  (* os.environ.get('BYTEPS_ENABLE_XLA', '0') *)
  enable_xla : string;
  (* self.__class__.__base__.__name__ *)
  base_name : string;
  (* the [_name] that super().__init__( **kwargs) assigns, if it assigns one:
     the name of the config with the OptimizerV2 base, none with the older
     keras.optimizers.Optimizer *)
  super_init_name : option string;
  (* with tf.name_scope(...) as scope *)
  name_scope : string -> string;
  (* tf.convert_to_tensor(grad) *)
  convert_to_tensor : gradient tensor slices -> tensor;
  (* bps.push_pull(grad, scope, device_dense=, device_sparse=, compression=) *)
  push_pull :
    gradient tensor slices -> string -> device -> device -> compression ->
    failure + gradient tensor slices;
  (* push_pull_xla_handle_out_v2(grad, scope, ..., idx=) *)
  push_pull_xla_handle_out_v2 :
    gradient tensor slices -> string -> device -> device -> compression -> Z ->
    failure + (tensor * tname * handle * context);
  (* _my_barrier_handle_out(handles) *)
  _my_barrier_handle_out :
    list (entry tensor tname handle context) -> failure + barrier;
  (* _sync_tensors_handle_out_v2(tensor, barrier_handle, tensor_name=, idx=) *)
  _sync_tensors_handle_out_v2 :
    entry tensor tname handle context -> barrier ->
    entry tensor tname handle context -> Z -> failure + tensor;
  (* compression.decompress(item, ctx) *)
  decompress :
    compression -> tensor -> entry tensor tname handle context ->
    failure + tensor;
  (* super().get_gradients(loss, params) *)
  super_get_gradients :
    loss -> params -> failure + list (option (gradient tensor slices));
  (* super().apply_gradients( *args, **kwargs) *)
  super_apply_gradients :
    update_args ->
    base_update (gradient tensor slices) variable failure update_op
}.

Definition grad (B : Backend) : Type := gradient (tensor B) (slices B).
Definition cell (B : Backend) : Type :=
  entry (tensor B) (tname B) (handle B) (context B).
Definition result (B : Backend) : Type :=
  (tensor B * tname B * handle B * context B)%type.

(** ** Effects *)

(** One constructor per call that leaves the module. *)
Inductive event (B : Backend) : Type :=
| Stdout (item : option (grad B))
| ConvertToTensor (g : grad B)
| PushPull (g : grad B) (scope : string) (dd ds : device B) (c : compression B)
| PushPullXla (g : grad B) (scope : string) (dd ds : device B)
    (c : compression B) (idx : Z)
| Barrier (handles : list (cell B))
| SyncTensors (t : cell B) (bh : barrier B) (tensor_name : cell B) (idx : Z)
| Decompress (c : compression B) (item : tensor B) (ctx : cell B)
| SuperGetGradients (l : loss B) (p : params B)
| SuperApplyGradients (a : update_args B).
Arguments Stdout {B} item.
Arguments ConvertToTensor {B} g.
Arguments PushPull {B} g scope dd ds c.
Arguments PushPullXla {B} g scope dd ds c idx.
Arguments Barrier {B} handles.
Arguments SyncTensors {B} t bh tensor_name idx.
Arguments Decompress {B} c item ctx.
Arguments SuperGetGradients {B} l p.
Arguments SuperApplyGradients {B} a.

(** Exceptions: Python's own [TypeError] and [IndexError], the plain
    [Exception] of [apply_gradients], and whatever a collaborator raised,
    which the module never catches. *)
Inductive error (B : Backend) : Type :=
| TypeError (msg : string)
| IndexError (msg : string)
| Exception (msg : string)
| Raised (f : failure B).
Arguments TypeError {B} msg.
Arguments IndexError {B} msg.
Arguments Exception {B} msg.
Arguments Raised {B} f.

(** [self._push_pull] is bound to one of the two methods in [__init__]. *)
Inductive bound_method : Type := Bound_push_pull_tf | Bound_push_pull_xla.

(** The attributes [__init__] sets on [self]. *)
Record optimizer (B : Backend) : Type := {
  _name : string;
  _device_dense : device B;
  _device_sparse : device B;
  _compression : compression B;
  _sparse_as_dense : bool;
  _aggregated_gradients : bool;
  _push_pull : bound_method
}.
Arguments _name {B} o.
Arguments _device_dense {B} o.
Arguments _device_sparse {B} o.
Arguments _compression {B} o.
Arguments _sparse_as_dense {B} o.
Arguments _aggregated_gradients {B} o.
Arguments _push_pull {B} o.

Record world (B : Backend) : Type := {
  self : optimizer B;
  calls : list (event B)
}.
Arguments self {B} w.
Arguments calls {B} w.

(** A computation returns a value or raises, and leaves a world either way. *)
Definition M (B : Backend) (A : Type) : Type :=
  world B -> (error B + A) * world B.

Section Monad.
Context {B : Backend}.

Definition ret {A} (a : A) : M B A := fun w => (inr a, w).

Definition bind {A C} (m : M B A) (k : A -> M B C) : M B C :=
  fun w =>
    match m w with
    | (inl e, w') => (inl e, w')
    | (inr a, w') => k a w'
    end.

Definition raise {A} (e : error B) : M B A := fun w => (inl e, w).

Definition get_self : M B (optimizer B) := fun w => (inr (self w), w).

Definition emit (ev : event B) : M B unit :=
  fun w => (inr tt, {| self := self w; calls := calls w ++ [ev] |}).

(** A call to a collaborator that may raise: logged, then its outcome. *)
Definition call {A} (ev : event B) (r : failure B + A) : M B A :=
  bind (emit ev)
       (fun _ => match r with inl f => raise (Raised f) | inr a => ret a end).

(** [self._aggregated_gradients = v] *)
Definition set_aggregated_gradients (v : bool) : M B unit :=
  fun w =>
    let o := self w in
    (inr tt,
     {| self := {| _name := _name o;
                   _device_dense := _device_dense o;
                   _device_sparse := _device_sparse o;
                   _compression := _compression o;
                   _sparse_as_dense := _sparse_as_dense o;
                   _aggregated_gradients := v;
                   _push_pull := _push_pull o |};
        calls := calls w |}).

(** A [for] loop or comprehension whose body may raise. *)
Fixpoint for_each {A C} (f : A -> M B C) (l : list A) : M B (list C) :=
  match l with
  | [] => ret []
  | x :: xs =>
      bind (f x) (fun y => bind (for_each f xs) (fun ys => ret (y :: ys)))
  end.
End Monad.

Declare Scope py_scope.
Delimit Scope py_scope with py.
Notation "x <- m ;; k" := (bind m (fun x => k))
  (at level 61, m at next level, right associativity) : py_scope.
Notation "' pat <- m ;; k" := (bind m (fun x => match x with pat => k end))
  (at level 61, pat pattern, m at next level, right associativity) : py_scope.
Notation "m ;; k" := (bind m (fun _ => k))
  (at level 61, right associativity) : py_scope.
Local Open Scope py_scope.

(** ** Python builtins used by the accelerated path *)

(** [enumerate(l, start)] *)
Fixpoint enumerate {A} (l : list A) (start : Z) : list (Z * A) :=
  match l with
  | [] => []
  | x :: xs => (start, x) :: enumerate xs (start + 1)
  end.

(** One round of [zip]: the next item of every argument, or [None] as soon
    as one argument is exhausted. *)
Fixpoint heads {A} (rows : list (list A)) : option (list A) :=
  match rows with
  | [] => Some []
  | [] :: _ => None
  | (x :: _) :: rs =>
      match heads rs with
      | Some hs => Some (x :: hs)
      | None => None
      end
  end.

Fixpoint zip_rounds {A} (n : nat) (rows : list (list A)) : list (list A) :=
  match n with
  | O => []
  | S k =>
      match heads rows with
      | Some hs => hs :: zip_rounds k (map (@tl A) rows)
      | None => []
      end
  end.

(** [list(zip( *rows))] for rows that are sequences: empty without
    arguments, otherwise as long as the shortest argument. *)
Definition zip_star {A} (rows : list (list A)) : list (list A) :=
  match rows with
  | [] => []
  | r :: _ => zip_rounds (List.length r) rows
  end.

(** ** The class [_DistributedOptimizer] *)

Section DistributedOptimizer.
Context {B : Backend}.

(** [super(self.__class__, self).__init__( **kwargs)], the last line of
    [__init__]: of the attributes that the class sets, the base constructors
    of Keras assign at most [_name]. *)
Definition super___init__ (o : optimizer B) : optimizer B :=
  match super_init_name B with
  | Some n =>
      {| _name := n;
         _device_dense := _device_dense o;
         _device_sparse := _device_sparse o;
         _compression := _compression o;
         _sparse_as_dense := _sparse_as_dense o;
         _aggregated_gradients := _aggregated_gradients o;
         _push_pull := _push_pull o |}
  | None => o
  end.

(** [__init__], with the arguments of [create_distributed_optimizer] that
    the class closes over.  [name or "Distributed%s" % ...] takes the
    default for [None] and for the empty string; the base constructor runs
    last. *)
Definition __init__ (name : option string)
    (device_dense device_sparse : device B) (compression : compression B)
    (sparse_as_dense : bool) : optimizer B :=
  super___init__
  {| _name := match name with
              | Some (String c s) => String c s
              | Some EmptyString | None => ("Distributed" ++ base_name B)%string
              end;
     _device_dense := device_dense;
     _device_sparse := device_sparse;
     _compression := compression;
     _sparse_as_dense := sparse_as_dense;
     _aggregated_gradients := false;
     _push_pull := if String.eqb (enable_xla B) "1"
                   then Bound_push_pull_xla
                   else Bound_push_pull_tf |}.

(** [create_distributed_optimizer]: the instance that
    [cls.from_config(optimizer.get_config())] constructs, in a world where
    it has made no call yet. *)
Definition create_distributed_optimizer (name : option string)
    (device_dense device_sparse : device B) (compression : compression B)
    (sparse_as_dense : bool) : world B :=
  {| self := __init__ name device_dense device_sparse compression
               sparse_as_dense;
     calls := [] |}.

(** [isinstance(grad, tf.IndexedSlices)] *)
Definition isinstance_IndexedSlices (g : grad B) : bool :=
  match g with
  | IndexedSlices _ => true
  | Tensor _ => false
  end.

(** [tf.convert_to_tensor(grad)] *)
Definition tf_convert_to_tensor (g : grad B) : M B (grad B) :=
  emit (ConvertToTensor g) ;;
  ret (Tensor (convert_to_tensor B g)).

(** [print("xxxxxxxxxxxxxx x2582", item)] *)
Definition print (item : option (grad B)) : M B unit :=
  emit (Stdout item).

(** [l[i]] *)
Definition getitem {A} (l : list A) (i : nat) : M B A :=
  match nth_error l i with
  | Some x => ret x
  | None => raise (IndexError "list index out of range")
  end.

(** What [zip] gets from one argument of [zip( *rows)]: a tuple yields
    its four components, [None] is not iterable. *)
Definition iterate (row : option (result B)) : M B (list (cell B)) :=
  match row with
  | Some (t, n, h, c) => ret [ETensor t; EName n; EHandle h; EContext c]
  | None => raise (TypeError "'NoneType' object is not iterable")
  end.

Definition _push_pull_tf (gradients : list (option (grad B)))
  : M B (list (option (grad B))) :=
  set_aggregated_gradients true ;;
  if 1 <? size B then
    o <- get_self ;;
    let scope := name_scope B (_name o ++ "_Push_Pull")%string in
    for_each
      (fun grad =>
         match grad with
         | Some grad =>
             grad <- (if _sparse_as_dense o && isinstance_IndexedSlices grad
                      then tf_convert_to_tensor grad
                      else ret grad) ;;
             avg_grad <- call (PushPull grad scope (_device_dense o)
                                 (_device_sparse o) (_compression o))
                              (push_pull B grad scope (_device_dense o)
                                 (_device_sparse o) (_compression o)) ;;
             ret (Some avg_grad)
         | None => ret None
         end)
      gradients
  else ret gradients.

(** The block under [with tf.device(self._device_dense)] of
    [_push_pull_xla]: transpose, barrier, bind, decompress. *)
Definition with_device_dense (o : optimizer B)
    (new_grads_names_and_handles_and_ctxes : list (option (result B)))
  : M B (list (option (grad B))) :=
  rows <- for_each iterate new_grads_names_and_handles_and_ctxes ;;
  let grads_and_names_and_handles_and_ctxes := zip_star rows in
  avg_grads <- getitem grads_and_names_and_handles_and_ctxes 0 ;;
  grad_names <- getitem grads_and_names_and_handles_and_ctxes 1 ;;
  handles <- getitem grads_and_names_and_handles_and_ctxes 2 ;;
  ctxes <- getitem grads_and_names_and_handles_and_ctxes 3 ;;
  barrier_handle <- call (Barrier handles)
                         (_my_barrier_handle_out B handles) ;;
  avg_grads <-
    for_each
      (fun '(idx, (tensor, item)) =>
         call (SyncTensors tensor barrier_handle item idx)
              (_sync_tensors_handle_out_v2 B tensor barrier_handle item idx))
      (enumerate (combine avg_grads grad_names) 1) ;;
  avg_grads <-
    for_each
      (fun '(item, ctx) =>
         call (Decompress (_compression o) item ctx)
              (decompress B (_compression o) item ctx))
      (combine avg_grads ctxes) ;;
  ret (map (fun t => Some (Tensor t)) avg_grads).

Definition _push_pull_xla (grads : list (option (grad B)))
  : M B (list (option (grad B))) :=
  for_each print grads ;;
  set_aggregated_gradients true ;;
  if size B <=? 1 then ret grads
  else
    o <- get_self ;;
    let scope := name_scope B (_name o ++ "_Push_Pull")%string in
    grads <- (if _sparse_as_dense o
              then for_each
                     (fun grad =>
                        match grad with
                        | Some g =>
                            if isinstance_IndexedSlices g
                            then g' <- tf_convert_to_tensor g ;; ret (Some g')
                            else ret grad
                        | None => ret grad
                        end)
                     grads
              else ret grads) ;;
    new_grads_names_and_handles_and_ctxes <-
      for_each
        (fun '(idx, grad) =>
           match grad with
           | Some g =>
               r <- call (PushPullXla g scope (_device_dense o)
                            (_device_sparse o) (_compression o) idx)
                         (push_pull_xla_handle_out_v2 B g scope
                            (_device_dense o) (_device_sparse o)
                            (_compression o) idx) ;;
               ret (Some r)
           | None => ret None
           end)
        (enumerate grads 1) ;;
    with_device_dense o new_grads_names_and_handles_and_ctxes.

(** The method that [__init__] bound to [self._push_pull]. *)
Definition bound (m : bound_method)
  : list (option (grad B)) -> M B (list (option (grad B))) :=
  match m with
  | Bound_push_pull_tf => _push_pull_tf
  | Bound_push_pull_xla => _push_pull_xla
  end.

(** [self._push_pull(gradients)] *)
Definition self_push_pull (gradients : list (option (grad B)))
  : M B (list (option (grad B))) :=
  o <- get_self ;;
  bound (_push_pull o) gradients.

Definition get_gradients (l : loss B) (p : params B)
  : M B (list (option (grad B))) :=
  gradients <- call (SuperGetGradients l p) (super_get_gradients B l p) ;;
  self_push_pull gradients.

Definition _aggregate_gradients
    (grads_and_vars : list (option (grad B) * variable B))
  : M B (list (option (grad B))) :=
  let gradients := map fst grads_and_vars in
  self_push_pull gradients.

Definition apply_gradients_message : string :=
  "`apply_gradients()` was called without a call to `get_gradients()` or `_aggregate_gradients`. If you're using TensorFlow 2.0, please specify `experimental_run_tf_function=False` in `compile()`.".

(** The run of the base class's [apply_gradients] on the wrapper. *)
Fixpoint super_apply
    (u : base_update (grad B) (variable B) (failure B) (update_op B))
  : M B (update_op B) :=
  match u with
  | Returns r => ret r
  | Raises f => raise (Raised f)
  | Calls_aggregate_gradients grads_and_vars k =>
      reduced_grads <- _aggregate_gradients grads_and_vars ;;
      super_apply (k reduced_grads)
  end.

Definition apply_gradients (args : update_args B) : M B (update_op B) :=
  o <- get_self ;;
  if negb (_aggregated_gradients o)
  then raise (Exception apply_gradients_message)
  else emit (SuperApplyGradients args) ;;
       super_apply (super_apply_gradients B args).
End DistributedOptimizer.

(** ** Callers

    What a training loop can do with the wrapper: call one of its methods,
    and go on with the same object whether the call returned or raised. *)

Inductive invocation (B : Backend) : Type :=
| Get_gradients (l : loss B) (p : params B)
| Aggregate_gradients (grads_and_vars : list (option (grad B) * variable B))
| Push_pull (m : bound_method) (gradients : list (option (grad B)))
| Apply_gradients (args : update_args B).
Arguments Get_gradients {B} l p.
Arguments Aggregate_gradients {B} grads_and_vars.
Arguments Push_pull {B} m gradients.
Arguments Apply_gradients {B} args.

Section Callers.
Context {B : Backend}.

Definition invoke (i : invocation B) (w : world B) : world B :=
  match i with
  | Get_gradients l p => snd (get_gradients l p w)
  | Aggregate_gradients gv => snd (_aggregate_gradients gv w)
  | Push_pull m gradients => snd (bound m gradients w)
  | Apply_gradients args => snd (apply_gradients args w)
  end.

Definition invoke_all (history : list (invocation B)) (w : world B)
  : world B :=
  fold_left (fun w i => invoke i w) history w.

(** The calls that reach an aggregation path on their own:
    [get_gradients] does once [super().get_gradients] has returned.  (The
    base class's [apply_gradients] may call back [_aggregate_gradients], but
    is only run on a wrapper whose flag is set.) *)
Definition aggregates (i : invocation B) : bool :=
  match i with
  | Get_gradients l p =>
      match super_get_gradients B l p with
      | inr _ => true
      | inl _ => false
      end
  | Aggregate_gradients _ | Push_pull _ _ => true
  | Apply_gradients _ => false
  end.

(** The calls that the message of [apply_gradients] names. *)
Definition named_in_message (i : invocation B) : bool :=
  match i with
  | Get_gradients _ _ | Aggregate_gradients _ => true
  | Push_pull _ _ | Apply_gradients _ => false
  end.
End Callers.

(** ** Vocabulary of the statements *)

Section Vocabulary.
Context {B : Backend}.

Definition add_calls (evs : list (event B)) (w : world B) : world B :=
  {| self := self w; calls := calls w ++ evs |}.

(** The world after [self._aggregated_gradients = True]. *)
Definition marked (w : world B) : world B :=
  snd (set_aggregated_gradients true w).

(** The calls a computation adds to the log. *)
Definition issued {A} (m : M B A) (w : world B) : list (event B) :=
  skipn (List.length (calls w)) (calls (snd (m w))).

Definition lift {A} (r : failure B + A) : error B + A :=
  match r with
  | inl f => inl (Raised f)
  | inr a => inr a
  end.

(** The outcome is an exception that a collaborator raised. *)
Definition propagated {A} (r : error B + A) : bool :=
  match r with
  | inl (Raised _) => true
  | _ => false
  end.

(** The outcome of a loop as a function of the outcome of its body. *)
Fixpoint traverse {A C} (h : A -> error B + C) (l : list A)
  : error B + list C :=
  match l with
  | [] => inr []
  | x :: xs =>
      match h x with
      | inl e => inl e
      | inr y =>
          match traverse h xs with
          | inl e => inl e
          | inr ys => inr (y :: ys)
          end
      end
  end.

(** The items whose body ran: all of them, or those up to and including
    the first whose body raised. *)
Fixpoint attempted {A C} (h : A -> error B + C) (l : list A) : list A :=
  match l with
  | [] => []
  | x :: xs =>
      match h x with
      | inl _ => [x]
      | inr _ => x :: attempted h xs
      end
  end.

(** Kinds of calls. *)
Definition is_push_pull (ev : event B) : bool :=
  match ev with PushPull _ _ _ _ _ => true | _ => false end.
Definition is_push_pull_xla (ev : event B) : bool :=
  match ev with PushPullXla _ _ _ _ _ _ => true | _ => false end.
Definition is_barrier (ev : event B) : bool :=
  match ev with Barrier _ => true | _ => false end.
Definition is_sync_tensors (ev : event B) : bool :=
  match ev with SyncTensors _ _ _ _ => true | _ => false end.
Definition is_convert (ev : event B) : bool :=
  match ev with ConvertToTensor _ => true | _ => false end.

(** The calls into the collective client and the compression strategy. *)
Definition collective (ev : event B) : bool :=
  match ev with
  | PushPull _ _ _ _ _ | PushPullXla _ _ _ _ _ _ | Barrier _
  | SyncTensors _ _ _ _ | Decompress _ _ _ => true
  | Stdout _ | ConvertToTensor _ | SuperGetGradients _ _
  | SuperApplyGradients _ => false
  end.

(** The gradient a push-pull call received. *)
Definition pushed (ev : event B) : option (grad B) :=
  match ev with
  | PushPull g _ _ _ _ | PushPullXla g _ _ _ _ _ => Some g
  | _ => None
  end.

(** The index a call received. *)
Definition index_of (ev : event B) : option Z :=
  match ev with
  | PushPullXla _ _ _ _ _ idx | SyncTensors _ _ _ idx => Some idx
  | _ => None
  end.

(** The name a bind call received. *)
Definition name_of (ev : event B) : option (cell B) :=
  match ev with
  | SyncTensors _ _ n _ => Some n
  | _ => None
  end.

(** The gradients that are not [None], in order. *)
Definition present {A} (l : list (option A)) : list A :=
  flat_map (fun x => match x with Some a => [a] | None => [] end) l.

(** The entries of an enumerated list that are not [None], each with the
    index it was enumerated with. *)
Definition positions {A} (l : list (Z * option A)) : list (Z * A) :=
  flat_map (fun ix => match snd ix with
                      | Some a => [(fst ix, a)]
                      | None => []
                      end) l.

(** The gradients that are not [None], in order, each with its 1-based
    position in the whole list. *)
Definition indexed {A} (l : list (option A)) : list (Z * A) :=
  positions (enumerate l 1).

Definition is_none {A} (x : option A) : bool :=
  match x with Some _ => false | None => true end.

Section Configured.
Variable o : optimizer B.

Definition scope_of : string :=
  name_scope B (_name o ++ "_Push_Pull")%string.

(** Whether a gradient is densified. *)
Definition densified (g : grad B) : bool :=
  _sparse_as_dense o && isinstance_IndexedSlices g.

(** The gradient that is handed to the collective client for [g]. *)
Definition handed (g : grad B) : grad B :=
  if densified g then Tensor (convert_to_tensor B g) else g.

Definition conversion (g : grad B) : list (event B) :=
  if densified g then [ConvertToTensor g] else [].

Definition sync_call (g : grad B) : event B :=
  PushPull (handed g) scope_of (_device_dense o) (_device_sparse o)
           (_compression o).

Definition async_call (ig : Z * grad B) : event B :=
  PushPullXla (handed (snd ig)) scope_of (_device_dense o)
              (_device_sparse o) (_compression o) (fst ig).

(** What the asynchronous push-pull of [g] at index [idx] returns. *)
Definition launch (ig : Z * grad B) : failure B + result B :=
  push_pull_xla_handle_out_v2 B (handed (snd ig)) scope_of
    (_device_dense o) (_device_sparse o) (_compression o) (fst ig).

(** Body of the loop of [_push_pull_tf]: outcome and calls. *)
Definition tf_outcome (gradient : option (grad B))
  : error B + option (grad B) :=
  match gradient with
  | Some g =>
      match push_pull B (handed g) scope_of (_device_dense o)
              (_device_sparse o) (_compression o) with
      | inl f => inl (Raised f)
      | inr avg_grad => inr (Some avg_grad)
      end
  | None => inr None
  end.

Definition tf_calls (gradient : option (grad B)) : list (event B) :=
  match gradient with
  | Some g => conversion g ++ [sync_call g]
  | None => []
  end.

(** Body of the launching comprehension of [_push_pull_xla]. *)
Definition xla_outcome (ig : Z * option (grad B))
  : error B + option (result B) :=
  match snd ig with
  | Some g =>
      match launch (fst ig, g) with
      | inl f => inl (Raised f)
      | inr r => inr (Some r)
      end
  | None => inr None
  end.

Definition xla_calls (ig : Z * option (grad B)) : list (event B) :=
  match snd ig with
  | Some g => [async_call (fst ig, g)]
  | None => []
  end.

Definition xla_conversion (gradient : option (grad B))
  : list (event B) :=
  match gradient with
  | Some g => conversion g
  | None => []
  end.

(** Bodies of the two comprehensions over the results. *)
Definition bind_outcome (bh : barrier B) (x : Z * (cell B * cell B))
  : error B + tensor B :=
  lift (_sync_tensors_handle_out_v2 B (fst (snd x)) bh (snd (snd x)) (fst x)).

Definition bind_call (bh : barrier B) (x : Z * (cell B * cell B))
  : event B :=
  SyncTensors (fst (snd x)) bh (snd (snd x)) (fst x).

Definition decompress_outcome (x : tensor B * cell B)
  : error B + tensor B :=
  lift (decompress B (_compression o) (fst x) (snd x)).

Definition decompress_call (x : tensor B * cell B) : event B :=
  Decompress (_compression o) (fst x) (snd x).
End Configured.

(** The columns of the transposed results. *)
Definition tensors_of (rs : list (result B)) : list (cell B) :=
  map (fun '(t, _, _, _) => ETensor t) rs.
Definition names_of (rs : list (result B)) : list (cell B) :=
  map (fun '(_, n, _, _) => EName n) rs.
Definition handles_of (rs : list (result B)) : list (cell B) :=
  map (fun '(_, _, h, _) => EHandle h) rs.
Definition contexts_of (rs : list (result B)) : list (cell B) :=
  map (fun '(_, _, _, c) => EContext c) rs.

(** What [zip] iterates over for one result. *)
Definition row_of (r : result B) : list (cell B) :=
  let '(t, n, h, c) := r in [ETensor t; EName n; EHandle h; EContext c].

(** What the bind comprehension enumerates. *)
Definition bound_pairs (rs : list (result B))
  : list (Z * (cell B * cell B)) :=
  enumerate (combine (tensors_of rs) (names_of rs)) 1.

(** Outcome and calls of the device block on the results of a request
    all of whose launches returned a result. *)
Definition block_outcome (o : optimizer B) (rs : list (result B))
  : error B + list (option (grad B)) :=
  match _my_barrier_handle_out B (handles_of rs) with
  | inl f => inl (Raised f)
  | inr bh =>
      match traverse (bind_outcome bh) (bound_pairs rs) with
      | inl e => inl e
      | inr synced =>
          match traverse (decompress_outcome o)
                  (combine synced (contexts_of rs)) with
          | inl e => inl e
          | inr out => inr (map (fun t => Some (Tensor t)) out)
          end
      end
  end.

Definition block_calls (o : optimizer B) (rs : list (result B))
  : list (event B) :=
  Barrier (handles_of rs)
  :: match _my_barrier_handle_out B (handles_of rs) with
     | inl _ => []
     | inr bh =>
         map (bind_call bh) (attempted (bind_outcome bh) (bound_pairs rs))
         ++ match traverse (bind_outcome bh) (bound_pairs rs) with
            | inl _ => []
            | inr synced =>
                map (decompress_call o)
                    (attempted (decompress_outcome o)
                       (combine synced (contexts_of rs)))
            end
     end.

(** The results when no row is [None]. *)
Fixpoint results_of {A} (rows : list (option A)) : option (list A) :=
  match rows with
  | [] => Some []
  | None :: _ => None
  | Some r :: rows =>
      match results_of rows with
      | Some rs => Some (r :: rs)
      | None => None
      end
  end.

(** Outcome and calls of the device block on any rows. *)
Definition device_outcome (o : optimizer B) (rows : list (option (result B)))
  : error B + list (option (grad B)) :=
  match results_of rows with
  | None => inl (TypeError "'NoneType' object is not iterable")
  | Some [] => inl (IndexError "list index out of range")
  | Some (r :: rs) => block_outcome o (r :: rs)
  end.

Definition device_calls (o : optimizer B) (rows : list (option (result B)))
  : list (event B) :=
  match results_of rows with
  | Some (r :: rs) => block_calls o (r :: rs)
  | _ => []
  end.

(** Outcome and calls of [_push_pull_xla] in a group of more than one. *)
Definition xla_request_outcome (o : optimizer B)
    (grads : list (option (grad B))) : error B + list (option (grad B)) :=
  match traverse (xla_outcome o) (enumerate grads 1) with
  | inl e => inl e
  | inr rows => device_outcome o rows
  end.

(** The calls up to the device block: prints, conversions, launches. *)
Definition launch_calls (o : optimizer B) (grads : list (option (grad B)))
  : list (event B) :=
  map Stdout grads
  ++ flat_map (xla_conversion o) grads
  ++ flat_map (xla_calls o) (attempted (xla_outcome o) (enumerate grads 1)).

(** The results the device block works on when it gets past the transposed
    list: every launch returned, no gradient was [None], and there was one. *)
Definition reached (o : optimizer B) (grads : list (option (grad B)))
  : option (list (result B)) :=
  match traverse (xla_outcome o) (enumerate grads 1) with
  | inl _ => None
  | inr rows =>
      match results_of rows with
      | Some (r :: rs) => Some (r :: rs)
      | _ => None
      end
  end.

Definition xla_request_calls (o : optimizer B)
    (grads : list (option (grad B))) : list (event B) :=
  launch_calls o grads
  ++ match traverse (xla_outcome o) (enumerate grads 1) with
     | inl _ => []
     | inr rows => device_calls o rows
     end.
End Vocabulary.

(** ** A fake collective client

    Tensors, names, handles and contexts are numbers.  A push-pull of a dense
    tensor with a negative number fails, so that a run can be made to break at
    a chosen call; the name, handle and context of an asynchronous push-pull
    are derived from its index. *)
Module Fake.
Definition async (t idx : Z) : string + (Z * Z * Z * Z) :=
  if t <? 0 then inl "worker unreachable"%string
  else inr (t, idx, 100 + idx, 200 + idx).

Definition number (g : gradient Z Z) : Z :=
  match g with
  | Tensor t => t
  | IndexedSlices s => s
  end.

Definition backend (workers : Z) (xla : string) : Backend :=
  {| tensor := Z; slices := Z; tname := Z; handle := Z; barrier := Z;
     context := Z; device := unit; compression := unit; failure := string;
     loss := unit; params := list (option (gradient Z Z)); variable := unit;
     update_args := unit; update_op := Z;
     size := workers;
     enable_xla := xla;
     base_name := "SGD"%string;
     super_init_name := None;
     name_scope := fun s => (s ++ "/")%string;
     convert_to_tensor := fun g => 1000 + number g;
     push_pull := fun g _ _ _ _ =>
       if number g <? 0 then inl "worker unreachable"%string else inr g;
     push_pull_xla_handle_out_v2 := fun g _ _ _ _ idx => async (number g) idx;
     _my_barrier_handle_out := fun hs => inr (Z.of_nat (List.length hs));
     _sync_tensors_handle_out_v2 := fun t _ _ _ =>
       match t with
       | ETensor t => inr t
       | _ => inl "not a tensor"%string
       end;
     decompress := fun _ item _ => inr item;
     super_get_gradients := fun _ p =>
       if existsb is_none p
       then inl "An operation has `None` for gradient."%string
       else inr p;
     super_apply_gradients := fun _ => Returns 0 |}.

Definition fresh (workers : Z) (xla : string) (sparse_as_dense : bool)
  : world (backend workers xla) :=
  @create_distributed_optimizer (backend workers xla) None tt tt tt
    sparse_as_dense.
(** The calls the fake client sees under the default name. *)
Definition scope : string := "DistributedSGD_Push_Pull/".

Definition sync (workers : Z) (xla : string) (g : gradient Z Z)
  : event (backend workers xla) :=
  @PushPull (backend workers xla) g scope tt tt tt.

Definition launched (workers : Z) (xla : string) (g : gradient Z Z) (idx : Z)
  : event (backend workers xla) :=
  @PushPullXla (backend workers xla) g scope tt tt tt idx.

Definition bound_to (workers : Z) (xla : string) (t bh n idx : Z)
  : event (backend workers xla) :=
  @SyncTensors (backend workers xla) (ETensor t) bh (EName n) idx.

Definition request : list (option (gradient Z Z)) :=
  [Some (Tensor 5); None; Some (IndexedSlices 7)].

Definition full_request : list (option (gradient Z Z)) :=
  [Some (Tensor 5); Some (IndexedSlices 7); Some (Tensor 9)].

(** The same client under a base class that behaves as tf.keras's
    OptimizerV2: its constructor assigns the config's name, and its
    [apply_gradients] calls back [_aggregate_gradients] on the pairs it is
    given. *)
Definition backend_v2 (workers : Z) (xla : string) : Backend :=
  {| tensor := Z; slices := Z; tname := Z; handle := Z; barrier := Z;
     context := Z; device := unit; compression := unit; failure := string;
     loss := unit; params := list (option (gradient Z Z)); variable := unit;
     update_args := list (option (gradient Z Z) * unit); update_op := Z;
     size := workers;
     enable_xla := xla;
     base_name := "SGD"%string;
     super_init_name := Some "SGD"%string;
     name_scope := fun s => (s ++ "/")%string;
     convert_to_tensor := fun g => 1000 + number g;
     push_pull := fun g _ _ _ _ =>
       if number g <? 0 then inl "worker unreachable"%string else inr g;
     push_pull_xla_handle_out_v2 := fun g _ _ _ _ idx => async (number g) idx;
     _my_barrier_handle_out := fun hs => inr (Z.of_nat (List.length hs));
     _sync_tensors_handle_out_v2 := fun t _ _ _ =>
       match t with
       | ETensor t => inr t
       | _ => inl "not a tensor"%string
       end;
     decompress := fun _ item _ => inr item;
     super_get_gradients := fun _ p =>
       if existsb is_none p
       then inl "An operation has `None` for gradient."%string
       else inr p;
     super_apply_gradients := fun grads_and_vars =>
       Calls_aggregate_gradients grads_and_vars
         (fun reduced_grads => Returns (Z.of_nat (List.length reduced_grads)))
  |}.

(** Gradients at positions 1, 3 and 5, [None] at 2 and 4. *)
Definition sparse_request : list (option (gradient Z Z)) :=
  [Some (Tensor 5); None; Some (Tensor 7); None; Some (Tensor 9)].
End Fake.


(** ** [load_model] *)

(** A Python dict with string keys: its items in insertion order. *)
Definition dict (V : Type) : Type := list (string * V).

(** [d[k] = v]: the value of a key that is there is replaced in place, a
    new key goes to the end. *)
Fixpoint setitem {V} (d : dict V) (k : string) (v : V) : dict V :=
  match d with
  | [] => [(k, v)]
  | (k', v') :: d' =>
      if String.eqb k' k then (k', v) :: d' else (k', v') :: setitem d' k v
  end.

(** [d.update(other)]: the items of [other] are set one after the other. *)
Definition update {V} (d : dict V) (other : list (string * V)) : dict V :=
  fold_left (fun d kv => setitem d (fst kv) (snd kv)) other d.

(** The dict comprehension [{k: v for ...}] over the items it produces. *)
Definition comprehension {V} (items : list (string * V)) : dict V :=
  update [] items.

(** [d.get(k)] *)
Fixpoint get {V} (d : dict V) (k : string) : option V :=
  match d with
  | [] => None
  | (k', v) :: d' => if String.eqb k' k then Some v else get d' k
  end.

(** What [load_model] takes from Keras and from Python: classes with their
    [__name__] and [__module__], [str.lower], the direct subclasses of
    [keras.optimizers.Optimizer] and [keras.models.load_model]. *)
Record Keras : Type := {
  cls : Type;
  object : Type;
  model : Type;
  path : Type;
  __name__ : cls -> string;
  __module__ : cls -> string;
  lower : string -> string;
  __subclasses__ : list cls;
  models_load_model : path -> dict object -> model
}.

Section LoadModel.
Context {K : Keras}.

(** The local [byteps_objects] of [load_model] when it is passed on. *)
Definition byteps_objects (wrap_optimizer : cls K -> object K)
    (optimizer_modules : list string)
    (custom_optimizers : option (list (cls K)))
    (custom_objects : option (dict (object K))) : dict (object K) :=
  let byteps_objects :=
    comprehension
      (map (fun subclass =>
              (lower K (__name__ K subclass), wrap_optimizer subclass))
           (filter (fun subclass =>
                      existsb (String.eqb (__module__ K subclass))
                              optimizer_modules)
                   (__subclasses__ K))) in
  let byteps_objects :=
    match custom_optimizers with
    | Some custom_optimizers =>
        update byteps_objects
          (comprehension
             (map (fun c => (__name__ K c, wrap_optimizer c))
                  custom_optimizers))
    | None => byteps_objects
    end in
  match custom_objects with
  | Some custom_objects => update byteps_objects custom_objects
  | None => byteps_objects
  end.

Definition load_model (wrap_optimizer : cls K -> object K)
    (optimizer_modules : list string) (filepath : path K)
    (custom_optimizers : option (list (cls K)))
    (custom_objects : option (dict (object K))) : model K :=
  models_load_model K filepath
    (byteps_objects wrap_optimizer optimizer_modules custom_optimizers
       custom_objects).

(** Whether a subclass is taken: [subclass.__module__ in optimizer_modules]. *)
Definition taken (optimizer_modules : list string) (subclass : cls K) : bool :=
  existsb (String.eqb (__module__ K subclass)) optimizer_modules.
End LoadModel.

(** The value of the last of the items that has the key. *)
Fixpoint last_binding {V} (items : list (string * V)) (k : string) : option V :=
  match items with
  | [] => None
  | (k', v) :: rest =>
      match last_binding rest k with
      | Some v' => Some v'
      | None => if String.eqb k' k then Some v else None
      end
  end.

(** A fake Keras: a class is its name and its module, wrapping tags the
    name, and [lower] is the lower case of ASCII letters. *)
Module FakeKeras.
Definition lower_ascii (a : Ascii.ascii) : Ascii.ascii :=
  let n := Ascii.nat_of_ascii a in
  if ((65 <=? n) && (n <=? 90))%nat then Ascii.ascii_of_nat (n + 32) else a.

Fixpoint lower_string (s : string) : string :=
  match s with
  | EmptyString => EmptyString
  | String a s => String (lower_ascii a) (lower_string s)
  end.

Definition keras : Keras :=
  {| cls := string * string; object := string; model := dict string;
     path := unit;
     __name__ := fst;
     __module__ := snd;
     lower := lower_string;
     __subclasses__ :=
       [("SGD", "keras.optimizers"); ("Adam", "keras.optimizers");
        ("Ftrl", "keras.contrib")]%string;
     models_load_model := fun _ custom_objects => custom_objects |}.

Definition wrap (c : string * string) : string :=
  ("Distributed" ++ fst c)%string.
End FakeKeras.

(** The calls to [print]. *)
Definition is_stdout {B : Backend} (ev : event B) : bool :=
  match ev with Stdout _ => true | _ => false end.

(** * Reasoning about runs *)

(** ** Loops whose body is a logged call *)

Section Loops.
Context {B : Backend}.

Lemma add_calls_nil (w : world B) : add_calls [] w = w.
Proof. destruct w; unfold add_calls; simpl; now rewrite app_nil_r. Qed.

Lemma add_calls_add evs evs' (w : world B) :
  add_calls evs' (add_calls evs w) = add_calls (evs ++ evs') w.
Proof. unfold add_calls; simpl; now rewrite app_assoc. Qed.

Lemma for_each_logged {A C} (f : A -> M B C) h ev :
  (forall x w, f x w = (h x, add_calls (ev x) w)) ->
  forall l w,
    for_each f l w
    = (traverse h l, add_calls (flat_map ev (attempted h l)) w).
Proof.
  intros Hf l; induction l as [|x xs IH]; intros w; simpl.
  - unfold ret; now rewrite add_calls_nil.
  - unfold bind at 1. rewrite Hf. destruct (h x) as [e|y].
    + simpl. now rewrite app_nil_r.
    + unfold bind at 1. rewrite IH, add_calls_add.
      destruct (traverse h xs); reflexivity.
Qed.

Lemma call_logged {A} ev (r : failure B + A) w :
  call ev r w = (lift r, add_calls [ev] w).
Proof. unfold call, bind, emit; simpl. destruct r; reflexivity. Qed.

Lemma traverse_inr {A C} (h : A -> error B + C) l ys :
  traverse h l = inr ys ->
  attempted h l = l /\ Forall2 (fun x y => h x = inr y) l ys.
Proof.
  revert ys; induction l as [|x xs IH]; intros ys; simpl.
  - intros [= <-]. split; [reflexivity | constructor].
  - destruct (h x) as [e|y] eqn:Hx; [discriminate|].
    destruct (traverse h xs) as [e|ys']; [discriminate|].
    intros [= <-]. destruct (IH ys' eq_refl) as [-> HF].
    split; [reflexivity | now constructor].
Qed.

Lemma traverse_total {A C} (h : A -> error B + C) (g : A -> C) l :
  (forall x, In x l -> h x = inr (g x)) ->
  traverse h l = inr (map g l) /\ attempted h l = l.
Proof.
  induction l as [|x xs IH]; intros H; simpl; [now split|].
  rewrite (H x (or_introl eq_refl)).
  destruct IH as [-> ->]; [intros; apply H; now right|]. now split.
Qed.

Lemma attempted_prefix {A C} (h : A -> error B + C) l :
  exists rest, l = attempted h l ++ rest.
Proof.
  induction l as [|x xs [rest IH]]; simpl; [now exists []|].
  destruct (h x).
  - now exists xs.
  - exists rest. simpl. now f_equal.
Qed.

Lemma issued_add {A} (m : M B A) w evs r :
  m w = (r, add_calls evs w) -> issued m w = evs.
Proof.
  intros H. unfold issued. rewrite H. simpl.
  now rewrite skipn_app, skipn_all, Nat.sub_diag.
Qed.

Lemma issued_add_marked {A} (m : M B A) w evs r :
  m w = (r, add_calls evs (marked w)) -> issued m w = evs.
Proof.
  intros H. unfold issued. rewrite H. simpl.
  now rewrite skipn_app, skipn_all, Nat.sub_diag.
Qed.
End Loops.

(** ** The direct path as a function of its input *)

Section Direct.
Context {B : Backend}.

Lemma tf_body (o : optimizer B) (x : option (grad B)) (w : world B) :
  match x with
  | Some grad =>
      grad <- (if _sparse_as_dense o && isinstance_IndexedSlices grad
               then tf_convert_to_tensor grad
               else ret grad) ;;
      avg_grad <- call (PushPull grad (scope_of o) (_device_dense o)
                          (_device_sparse o) (_compression o))
                       (push_pull B grad (scope_of o) (_device_dense o)
                          (_device_sparse o) (_compression o)) ;;
      ret (Some avg_grad)
  | None => ret None
  end w
  = (tf_outcome o x, add_calls (tf_calls o x) w).
Proof.
  destruct x as [g|]; simpl.
  - unfold handed, conversion, sync_call, handed, densified.
    destruct (_sparse_as_dense o && isinstance_IndexedSlices g).
    + unfold bind at 1, tf_convert_to_tensor, bind at 1, emit, ret.
      unfold bind at 1. rewrite call_logged.
      change {| self := self w; calls := calls w ++ [ConvertToTensor g] |}
        with (add_calls [ConvertToTensor g] w).
      rewrite add_calls_add.
      simpl. destruct (push_pull B _ _ _ _ _); reflexivity.
    + unfold bind at 1, ret at 1. unfold bind at 1. rewrite call_logged.
      simpl. destruct (push_pull B _ _ _ _ _); reflexivity.
  - unfold ret. now rewrite add_calls_nil.
Qed.

Lemma _push_pull_tf_run (gradients : list (option (grad B))) (w : world B) :
  1 < size B ->
  _push_pull_tf gradients w
  = (traverse (tf_outcome (self (marked w))) gradients,
     add_calls (flat_map (tf_calls (self (marked w)))
                  (attempted (tf_outcome (self (marked w))) gradients))
               (marked w)).
Proof.
  intros Hsize. unfold _push_pull_tf, bind at 1. simpl.
  apply Z.ltb_lt in Hsize. rewrite Hsize.
  unfold bind at 1, get_self.
  apply for_each_logged. intros x w'. apply tf_body.
Qed.

Lemma _push_pull_tf_alone (gradients : list (option (grad B))) (w : world B) :
  size B <= 1 -> _push_pull_tf gradients w = (inr gradients, marked w).
Proof.
  intros Hsize. unfold _push_pull_tf, bind. simpl.
  destruct (Z.ltb_spec 1 (size B)); [lia | reflexivity].
Qed.
End Direct.

(** ** The accelerated path as a function of its input *)

Section Accelerated.
Context {B : Backend}.

Lemma flat_map_singleton {A C} (f : A -> C) (l : list A) :
  flat_map (fun x => [f x]) l = map f l.
Proof. induction l; simpl; congruence. Qed.

Lemma flat_map_nil {A C} (f : A -> list C) (l : list A) :
  (forall x, In x l -> f x = []) -> flat_map f l = [].
Proof.
  induction l as [|x xs IH]; intros H; simpl; [reflexivity|].
  rewrite (H x (or_introl eq_refl)), IH; [reflexivity|].
  intros; apply H; now right.
Qed.

Lemma enumerate_map {A C} (d : A -> C) (l : list A) (s : Z) :
  enumerate (map d l) s = map (fun ix => (fst ix, d (snd ix))) (enumerate l s).
Proof. revert s; induction l; intros s; simpl; [|rewrite IHl]; reflexivity. Qed.

Lemma for_each_map {A A' C} (f : A' -> M B C) (k : A -> A') (l : list A) w :
  for_each f (map k l) w = for_each (fun x => f (k x)) l w.
Proof.
  revert w; induction l as [|x xs IH]; intros w; simpl; [reflexivity|].
  unfold bind. destruct (f (k x) w) as [[e|y] w']; [reflexivity|].
  now rewrite IH.
Qed.

Lemma prints_run (grads : list (option (grad B))) (w : world B) :
  for_each print grads w
  = (inr (map (fun _ => tt) grads), add_calls (map Stdout grads) w).
Proof.
  rewrite (for_each_logged print (fun _ => inr tt) (fun x => [Stdout x]))
    by reflexivity.
  destruct (traverse_total (fun _ : option (grad B) => inr tt : error B + unit)
              (fun _ => tt) grads) as [-> ->]; [reflexivity|].
  now rewrite flat_map_singleton.
Qed.

(** After the conversions the list holds the gradients as handed on. *)
Lemma conversions_run (o : optimizer B) (grads : list (option (grad B))) w :
  (if _sparse_as_dense o
   then for_each
          (fun grad =>
             match grad with
             | Some g =>
                 if isinstance_IndexedSlices g
                 then g' <- tf_convert_to_tensor g ;; ret (Some g')
                 else ret grad
             | None => ret grad
             end)
          grads
   else ret grads) w
  = (inr (map (option_map (handed o)) grads),
     add_calls (flat_map (xla_conversion o) grads) w).
Proof.
  destruct (_sparse_as_dense o) eqn:Hs.
  - rewrite (for_each_logged _
               (fun grad => inr (option_map (handed o) grad))
               (xla_conversion o)).
    + destruct (traverse_total
                  (fun grad : option (grad B) =>
                     inr (option_map (handed o) grad) : error B + _)
                  (option_map (handed o)) grads) as [-> ->]; reflexivity.
    + intros [g|] w'; simpl.
      * unfold handed, conversion, densified. rewrite Hs. simpl.
        destruct (isinstance_IndexedSlices g); [reflexivity|].
        unfold ret. now rewrite add_calls_nil.
      * unfold ret. now rewrite add_calls_nil.
  - unfold ret. rewrite flat_map_nil, add_calls_nil.
    + f_equal. f_equal. rewrite <- (map_id grads) at 1. apply map_ext.
      intros [g|]; simpl; [|reflexivity].
      unfold handed, densified. now rewrite Hs.
    + intros [g|] _; simpl; [|reflexivity].
      unfold conversion, densified. now rewrite Hs.
Qed.

Lemma launches_run (o : optimizer B) (grads : list (option (grad B))) w :
  for_each
    (fun '(idx, grad) =>
       match grad with
       | Some g =>
           r <- call (PushPullXla g (scope_of o) (_device_dense o)
                        (_device_sparse o) (_compression o) idx)
                     (push_pull_xla_handle_out_v2 B g (scope_of o)
                        (_device_dense o) (_device_sparse o)
                        (_compression o) idx) ;;
           ret (Some r)
       | None => ret None
       end)
    (enumerate (map (option_map (handed o)) grads) 1) w
  = (traverse (xla_outcome o) (enumerate grads 1),
     add_calls (flat_map (xla_calls o)
                  (attempted (xla_outcome o) (enumerate grads 1))) w).
Proof.
  rewrite enumerate_map, for_each_map.
  apply for_each_logged. intros [idx [g|]] w'; simpl.
  - unfold bind. rewrite call_logged.
    unfold xla_outcome, xla_calls, launch, async_call; simpl.
    destruct (push_pull_xla_handle_out_v2 B _ _ _ _ _ _); reflexivity.
  - unfold ret, xla_outcome, xla_calls; simpl. now rewrite add_calls_nil.
Qed.

Lemma bind_run {A C} (m : M B A) (k : A -> M B C) w :
  bind m k w
  = match m w with
    | (inl e, w') => (inl e, w')
    | (inr a, w') => k a w'
    end.
Proof. reflexivity. Qed.

Lemma set_aggregated_gradients_run (w : world B) :
  set_aggregated_gradients true w = (inr tt, marked w).
Proof. reflexivity. Qed.

Lemma marked_add_calls evs (w : world B) :
  marked (add_calls evs w) = add_calls evs (marked w).
Proof. reflexivity. Qed.

Lemma _push_pull_xla_alone (grads : list (option (grad B))) (w : world B) :
  size B <= 1 ->
  _push_pull_xla grads w
  = (inr grads, add_calls (map Stdout grads) (marked w)).
Proof.
  intros Hsize. unfold _push_pull_xla.
  rewrite bind_run, prints_run. cbv beta iota.
  rewrite bind_run, set_aggregated_gradients_run. cbv beta iota.
  destruct (Z.leb_spec (size B) 1); [reflexivity | lia].
Qed.

Lemma _push_pull_xla_run (grads : list (option (grad B))) (w : world B) :
  1 < size B ->
  _push_pull_xla grads w
  = match traverse (xla_outcome (self (marked w))) (enumerate grads 1) with
    | inl e =>
        (inl e, add_calls (launch_calls (self (marked w)) grads) (marked w))
    | inr rows =>
        with_device_dense (self (marked w)) rows
          (add_calls (launch_calls (self (marked w)) grads) (marked w))
    end.
Proof.
  intros Hsize. unfold _push_pull_xla.
  rewrite bind_run, prints_run. cbv beta iota.
  rewrite bind_run, set_aggregated_gradients_run. cbv beta iota.
  destruct (Z.leb_spec (size B) 1); [lia|].
  rewrite marked_add_calls, bind_run. unfold get_self. cbv beta iota zeta.
  change (self (add_calls (map Stdout grads) (marked w)))
    with (self (marked w)).
  set (o := self (marked w)).
  change (name_scope B (_name o ++ "_Push_Pull")%string) with (scope_of o).
  rewrite bind_run, conversions_run. cbv beta iota.
  rewrite add_calls_add, bind_run, launches_run, add_calls_add.
  unfold launch_calls. rewrite <- app_assoc.
  destruct (traverse (xla_outcome o) (enumerate grads 1)); reflexivity.
Qed.

(** *** The device block *)

Lemma iterate_none (rows : list (option (result B))) w :
  In None rows ->
  for_each iterate rows w
  = (inl (TypeError "'NoneType' object is not iterable"), w).
Proof.
  induction rows as [|[[[[t n] h] c]|] rows IH]; intros Hin; simpl.
  - destruct Hin.
  - destruct Hin as [Heq|Hin]; [discriminate|].
    rewrite bind_run. unfold ret at 1. cbv beta iota.
    rewrite bind_run, (IH Hin). reflexivity.
  - reflexivity.
Qed.

Lemma iterate_all (rs : list (result B)) w :
  for_each iterate (map Some rs) w = (inr (map row_of rs), w).
Proof.
  induction rs as [|[[[t n] h] c] rs IH]; simpl; [reflexivity|].
  rewrite bind_run. unfold ret at 1. cbv beta iota.
  rewrite bind_run, IH. reflexivity.
Qed.

Lemma heads_cons {A X} (f : A -> X) (k : A -> list X) (l : list A) :
  heads (map (fun r => f r :: k r) l) = Some (map f l).
Proof. induction l; simpl; [|rewrite IHl]; reflexivity. Qed.

Lemma tails_cons {A X} (f : A -> X) (k : A -> list X) (l : list A) :
  map (@tl X) (map (fun r => f r :: k r) l) = map k l.
Proof. rewrite map_map. reflexivity. Qed.

Lemma zip_star_results (rs : list (result B)) :
  rs <> [] ->
  zip_star (map row_of rs)
  = [tensors_of rs; names_of rs; handles_of rs; contexts_of rs].
Proof.
  intros Hne.
  assert (Hrow : map row_of rs
                 = map (fun r => (fun '(t, _, _, _) => ETensor t) r
                                 :: (fun '(_, n, _, _) => EName n) r
                                 :: (fun '(_, _, h, _) => EHandle h) r
                                 :: (fun '(_, _, _, c) => EContext c) r
                                 :: []) rs).
  { apply map_ext. intros [[[t n] h] c]. reflexivity. }
  unfold zip_star. destruct rs as [|r rs']; [congruence|].
  set (l := r :: rs') in *.
  replace (List.length match map row_of l with
                       | [] => []
                       | r0 :: _ => r0
                       end) with 4%nat
    by (subst l; destruct r as [[[t n] h] c]; reflexivity).
  assert (Hz : zip_rounds 4 (map row_of l)
               = [tensors_of l; names_of l; handles_of l; contexts_of l]).
  { rewrite Hrow. simpl zip_rounds.
    rewrite heads_cons, tails_cons, heads_cons, tails_cons,
      heads_cons, tails_cons, heads_cons. reflexivity. }
  subst l. simpl map at 1.
  destruct r as [[[t n] h] c]. exact Hz.
Qed.

Lemma with_device_dense_none (o : optimizer B) rows w :
  In None rows ->
  with_device_dense o rows w
  = (inl (TypeError "'NoneType' object is not iterable"), w).
Proof.
  intros Hin. unfold with_device_dense.
  now rewrite bind_run, iterate_none.
Qed.

Lemma with_device_dense_empty (o : optimizer B) w :
  with_device_dense o [] w
  = (inl (IndexError "list index out of range"), w).
Proof. reflexivity. Qed.

Lemma with_device_dense_results (o : optimizer B) (rs : list (result B)) w :
  rs <> [] ->
  with_device_dense o (map Some rs) w
  = (block_outcome o rs, add_calls (block_calls o rs) w).
Proof.
  intros Hne. unfold with_device_dense.
  rewrite bind_run, iterate_all. cbv beta iota zeta.
  rewrite (zip_star_results rs Hne).
  unfold getitem. simpl nth_error.
  do 4 (rewrite bind_run; unfold ret at 1; cbv beta iota).
  rewrite bind_run, call_logged.
  unfold block_outcome, block_calls.
  destruct (_my_barrier_handle_out B (handles_of rs)) as [f|bh];
    simpl lift; cbv beta iota; [reflexivity|].
  rewrite bind_run.
  rewrite (for_each_logged _ (bind_outcome bh) (fun x => [bind_call bh x]))
    by (intros [idx [t n]] w'; apply call_logged).
  fold (bound_pairs rs). rewrite flat_map_singleton, add_calls_add.
  destruct (traverse (bind_outcome bh) (bound_pairs rs)) as [e|synced];
    cbv beta iota.
  - now rewrite app_nil_r.
  - rewrite bind_run.
    rewrite (for_each_logged _ (decompress_outcome o)
               (fun x => [decompress_call o x]))
      by (intros [item ctx] w'; apply call_logged).
    rewrite flat_map_singleton, add_calls_add, <- app_assoc.
    destruct (traverse (decompress_outcome o) _); reflexivity.
Qed.

(** *** Results against gradients *)

Lemma none_or_all {A} (l : list (option A)) :
  In None l \/ exists xs, l = map Some xs.
Proof.
  induction l as [|[a|] l [Hin|[xs ->]]]; auto.
  - right. now exists [].
  - left. now right.
  - right. now exists (a :: xs).
  - left. now left.
  - left. now left.
Qed.

Lemma launched_none (o : optimizer B) grads s rows :
  traverse (xla_outcome o) (enumerate grads s) = inr rows ->
  In None grads -> In None rows.
Proof.
  revert s rows; induction grads as [|g grads IH]; intros s rows; simpl.
  - intros _ [].
  - destruct (xla_outcome o (s, g)) as [e|row] eqn:Hrow; [discriminate|].
    destruct (traverse (xla_outcome o) (enumerate grads (s + 1)))
      as [e|rows'] eqn:Hrows; [discriminate|].
    intros [= <-] [->|Hin].
    + unfold xla_outcome in Hrow. simpl in Hrow. injection Hrow as <-.
      now left.
    + right. eapply IH; eauto.
Qed.

Lemma launched_all (o : optimizer B) gs s rows :
  traverse (xla_outcome o) (enumerate (map Some gs) s) = inr rows ->
  exists rs,
    rows = map Some rs /\
    traverse (fun ig => lift (launch o ig)) (enumerate gs s) = inr rs.
Proof.
  revert s rows; induction gs as [|g gs IH]; intros s rows; simpl.
  - intros [= <-]. now exists [].
  - unfold xla_outcome at 1. simpl.
    destruct (launch o (s, g)) as [f|r]; [discriminate|]. simpl.
    destruct (traverse (xla_outcome o) (enumerate (map Some gs) (s + 1)))
      as [e|rows'] eqn:Hrows; [discriminate|].
    intros [= <-]. destruct (IH _ _ Hrows) as (rs & -> & ->).
    now exists (r :: rs).
Qed.
End Accelerated.

(** ** The world a path leaves behind *)

Section AfterAPath.
Context {B : Backend}.

Lemma with_device_dense_world (o : optimizer B) rows (w : world B) :
  exists evs, snd (with_device_dense o rows w) = add_calls evs w.
Proof.
  destruct (none_or_all rows) as [Hin|[rs ->]].
  - exists []. now rewrite with_device_dense_none, add_calls_nil.
  - destruct rs as [|r rs].
    + exists []. simpl map. now rewrite with_device_dense_empty, add_calls_nil.
    + exists (block_calls o (r :: rs)).
      now rewrite with_device_dense_results.
Qed.

(** Whatever the size of the group and whatever the outcome, a path leaves
    the object with the flag set, everything else as it was, and the log
    extended. *)
Lemma bound_world (m : bound_method) grads (w : world B) :
  exists evs, snd (bound m grads w) = add_calls evs (marked w).
Proof.
  destruct (Z.ltb_spec 1 (size B)) as [Hsize|Hsize]; destruct m; simpl bound.
  - rewrite _push_pull_tf_run by assumption. eexists. reflexivity.
  - rewrite _push_pull_xla_run by assumption.
    destruct (traverse _ _) as [e|rows]; [eexists; reflexivity|].
    destruct (with_device_dense_world (self (marked w)) rows
                (add_calls (launch_calls (self (marked w)) grads) (marked w)))
      as [evs ->].
    rewrite add_calls_add. eexists. reflexivity.
  - rewrite _push_pull_tf_alone by assumption.
    exists []. now rewrite add_calls_nil.
  - rewrite _push_pull_xla_alone by assumption. eexists. reflexivity.
Qed.

Lemma bound_flag (m : bound_method) grads (w : world B) :
  _aggregated_gradients (self (snd (bound m grads w))) = true.
Proof. destruct (bound_world m grads w) as [evs ->]. reflexivity. Qed.

Lemma self_push_pull_flag grads (w : world B) :
  _aggregated_gradients (self (snd (self_push_pull grads w))) = true.
Proof.
  unfold self_push_pull. rewrite bind_run. unfold get_self.
  apply bound_flag.
Qed.

Lemma self_push_pull_world grads (w : world B) :
  exists evs, snd (self_push_pull grads w) = add_calls evs (marked w).
Proof.
  unfold self_push_pull. rewrite bind_run. unfold get_self.
  apply bound_world.
Qed.

Lemma marked_self_id (w : world B) :
  _aggregated_gradients (self w) = true -> self (marked w) = self w.
Proof.
  destruct w as [[n dd ds c sad fl pp] cs]. simpl. now intros ->.
Qed.

(** The base class's [apply_gradients], run on a wrapper whose flag is set,
    leaves the wrapper as it was, also when it calls back. *)
Lemma super_apply_self u (w : world B) :
  _aggregated_gradients (self w) = true ->
  self (snd (super_apply u w)) = self w.
Proof.
  revert w; induction u as [r|f|gv k IH]; intros w Hw; simpl;
    [reflexivity|reflexivity|].
  rewrite bind_run. unfold _aggregate_gradients.
  destruct (self_push_pull_world (map fst gv) w) as [evs Hevs].
  destruct (self_push_pull (map fst gv) w) as [[e|gs] w'];
    simpl in Hevs; subst w'.
  - simpl. now apply marked_self_id.
  - rewrite IH by reflexivity. simpl. now apply marked_self_id.
Qed.

Lemma apply_gradients_run args (w : world B) :
  apply_gradients args w
  = if _aggregated_gradients (self w)
    then super_apply (super_apply_gradients B args)
           (add_calls [SuperApplyGradients args] w)
    else (inl (Exception apply_gradients_message), w).
Proof.
  unfold apply_gradients. rewrite bind_run. unfold get_self.
  destruct (_aggregated_gradients (self w)); reflexivity.
Qed.

Lemma apply_gradients_self args (w : world B) :
  self (snd (apply_gradients args w)) = self w.
Proof.
  rewrite apply_gradients_run.
  destruct (_aggregated_gradients (self w)) eqn:Hw; [|reflexivity].
  now rewrite super_apply_self.
Qed.

Lemma get_gradients_run l p (w : world B) :
  get_gradients l p w
  = match super_get_gradients B l p with
    | inl f => (inl (Raised f), add_calls [SuperGetGradients l p] w)
    | inr gradients =>
        self_push_pull gradients (add_calls [SuperGetGradients l p] w)
    end.
Proof.
  unfold get_gradients. rewrite bind_run, call_logged.
  destruct (super_get_gradients B l p); reflexivity.
Qed.

Lemma invoke_flag (i : invocation B) (w : world B) :
  _aggregated_gradients (self (invoke i w))
  = _aggregated_gradients (self w) || aggregates i.
Proof.
  destruct i; simpl; rewrite ?orb_true_r, ?orb_false_r.
  - rewrite get_gradients_run.
    destruct (super_get_gradients B l p) as [f|gradients].
    + now rewrite orb_false_r.
    + rewrite orb_true_r. apply self_push_pull_flag.
  - apply self_push_pull_flag.
  - apply bound_flag.
  - now rewrite apply_gradients_self.
Qed.

Lemma invoke_all_flag (history : list (invocation B)) (w : world B) :
  _aggregated_gradients (self (invoke_all history w))
  = _aggregated_gradients (self w) || existsb aggregates history.
Proof.
  unfold invoke_all.
  revert w; induction history as [|i history IH]; intros w; simpl.
  - now rewrite orb_false_r.
  - rewrite IH, invoke_flag. now rewrite orb_assoc.
Qed.

Lemma filter_none {A} (p : A -> bool) (l : list A) :
  Forall (fun x => p x = false) l -> filter p l = [].
Proof.
  induction 1 as [|x l Hx _ IH]; simpl; [reflexivity|]. now rewrite Hx.
Qed.

Lemma filter_all {A} (p : A -> bool) (l : list A) :
  Forall (fun x => p x = true) l -> filter p l = l.
Proof.
  induction 1 as [|x l Hx _ IH]; simpl; [reflexivity|]. now rewrite Hx, IH.
Qed.
End AfterAPath.

(** ** Both paths in closed form *)

Section ClosedForm.
Context {B : Backend}.

Lemma results_of_none {A} (rows : list (option A)) :
  In None rows -> results_of rows = None.
Proof.
  induction rows as [|[r|] rows IH]; simpl; intros Hin; auto.
  - destruct Hin.
  - destruct Hin as [|Hin]; [discriminate|]. now rewrite IH.
Qed.

Lemma results_of_all {A} (rs : list A) : results_of (map Some rs) = Some rs.
Proof. induction rs; simpl; [|rewrite IHrs]; reflexivity. Qed.

Lemma with_device_dense_run (o : optimizer B) rows (w : world B) :
  with_device_dense o rows w
  = (device_outcome o rows, add_calls (device_calls o rows) w).
Proof.
  unfold device_outcome, device_calls.
  destruct (none_or_all rows) as [Hin|[rs ->]].
  - rewrite with_device_dense_none, results_of_none, add_calls_nil; auto.
  - rewrite results_of_all. destruct rs as [|r rs].
    + simpl map. now rewrite with_device_dense_empty, add_calls_nil.
    + now rewrite with_device_dense_results.
Qed.

Lemma _push_pull_xla_closed (grads : list (option (grad B))) (w : world B) :
  1 < size B ->
  _push_pull_xla grads w
  = (xla_request_outcome (self (marked w)) grads,
     add_calls (xla_request_calls (self (marked w)) grads) (marked w)).
Proof.
  intros Hsize. rewrite _push_pull_xla_run by assumption.
  unfold xla_request_outcome, xla_request_calls.
  destruct (traverse _ _) as [e|rows].
  - now rewrite app_nil_r.
  - now rewrite with_device_dense_run, add_calls_add.
Qed.

Lemma _push_pull_xla_issued (grads : list (option (grad B))) (w : world B) :
  1 < size B ->
  issued (_push_pull_xla grads) w = xla_request_calls (self (marked w)) grads.
Proof.
  intros Hsize. eapply issued_add_marked. now apply _push_pull_xla_closed.
Qed.

Lemma _push_pull_tf_issued (grads : list (option (grad B))) (w : world B) :
  1 < size B ->
  issued (_push_pull_tf grads) w
  = flat_map (tf_calls (self (marked w)))
      (attempted (tf_outcome (self (marked w))) grads).
Proof.
  intros Hsize. eapply issued_add_marked. now apply _push_pull_tf_run.
Qed.

(** The only exceptions of the loops are those of the collaborators. *)
Lemma tf_outcome_raised (o : optimizer B) l e :
  traverse (tf_outcome o) l = inl e -> exists f, e = Raised f.
Proof.
  induction l as [|[g|] l IH]; simpl; [discriminate| |].
  - destruct (push_pull B _ _ _ _ _) as [f|a].
    + intros [= <-]. now exists f.
    + destruct (traverse (tf_outcome o) l); [|discriminate].
      intros [= <-]. now apply IH.
  - destruct (traverse (tf_outcome o) l); [|discriminate].
    intros [= <-]. now apply IH.
Qed.

Lemma xla_outcome_raised (o : optimizer B) l e :
  traverse (xla_outcome o) l = inl e -> exists f, e = Raised f.
Proof.
  induction l as [|[i [g|]] l IH]; cbn [traverse]; [discriminate| |].
  - unfold xla_outcome at 1. cbn [fst snd].
    destruct (launch o (i, g)) as [f|a].
    + intros [= <-]. now exists f.
    + destruct (traverse (xla_outcome o) l); [|discriminate].
      intros [= <-]. now apply IH.
  - unfold xla_outcome at 1. cbn [fst snd].
    destruct (traverse (xla_outcome o) l); [|discriminate].
    intros [= <-]. now apply IH.
Qed.

Lemma present_app {A} (l l' : list (option A)) :
  present (l ++ l') = present l ++ present l'.
Proof. apply flat_map_app. Qed.

Lemma positions_app {A} (l l' : list (Z * option A)) :
  positions (l ++ l') = positions l ++ positions l'.
Proof. apply flat_map_app. Qed.

Lemma filter_flat_map {A X} (p : X -> bool) (f : A -> list X) (l : list A) :
  filter p (flat_map f l) = flat_map (fun x => filter p (f x)) l.
Proof.
  induction l as [|x l IH]; simpl; [reflexivity|].
  now rewrite filter_app, IH.
Qed.

Lemma conversion_not_collective (o : optimizer B) g :
  filter collective (conversion o g) = [].
Proof. unfold conversion. destruct (densified o g); reflexivity. Qed.

(** The collective calls of the direct loop: one push-pull per gradient. *)
Lemma tf_calls_collective (o : optimizer B) (l : list (option (grad B))) :
  filter collective (flat_map (tf_calls o) l) = map (sync_call o) (present l).
Proof.
  induction l as [|[g|] l IH]; simpl; [reflexivity| |assumption].
  rewrite <- app_assoc, filter_app, conversion_not_collective. simpl.
  now rewrite IH.
Qed.

Lemma xla_calls_positions (o : optimizer B) (l : list (Z * option (grad B))) :
  flat_map (xla_calls o) l = map (async_call o) (positions l).
Proof.
  induction l as [|[i [g|]] l IH]; cbn [flat_map positions]; [reflexivity| |].
  - unfold xla_calls at 1. cbn [fst snd app map]. fold (positions l).
    now rewrite IH.
  - unfold xla_calls at 1. cbn [fst snd app]. fold (positions l).
    now rewrite IH.
Qed.

Lemma block_calls_kinds (o : optimizer B) rs :
  Forall (fun ev => match ev with
                    | Barrier _ | SyncTensors _ _ _ _ | Decompress _ _ _ => True
                    | _ => False
                    end) (block_calls o rs).
Proof.
  apply Forall_forall. intros ev Hin. unfold block_calls in Hin.
  destruct Hin as [<-|Hin]; [exact I|].
  destruct (_my_barrier_handle_out B (handles_of rs)) as [f|bh]; [destruct Hin|].
  apply in_app_or in Hin. destruct Hin as [Hin|Hin].
  - apply in_map_iff in Hin. destruct Hin as (x & <- & _). exact I.
  - destruct (traverse _ _); [destruct Hin|].
    apply in_map_iff in Hin. destruct Hin as (x & <- & _). exact I.
Qed.

Lemma device_calls_kinds (o : optimizer B) rows :
  Forall (fun ev => match ev with
                    | Barrier _ | SyncTensors _ _ _ _ | Decompress _ _ _ => True
                    | _ => False
                    end) (device_calls o rows).
Proof.
  unfold device_calls. destruct (results_of rows) as [[|r rs]|]; auto.
  apply block_calls_kinds.
Qed.

Lemma device_calls_no_launch (o : optimizer B) rows :
  filter is_push_pull_xla (device_calls o rows) = [].
Proof.
  apply filter_none. eapply Forall_impl; [|apply device_calls_kinds].
  intros []; simpl; tauto.
Qed.

Lemma device_calls_no_convert (o : optimizer B) rows :
  filter is_convert (device_calls o rows) = [].
Proof.
  apply filter_none. eapply Forall_impl; [|apply device_calls_kinds].
  intros []; simpl; tauto.
Qed.

Lemma xla_request_launches (o : optimizer B) grads :
  filter is_push_pull_xla (xla_request_calls o grads)
  = map (async_call o)
      (positions (attempted (xla_outcome o) (enumerate grads 1))).
Proof.
  unfold xla_request_calls, launch_calls.
  rewrite !filter_app, xla_calls_positions.
  rewrite (filter_none _ (map Stdout grads)).
  2:{ apply Forall_forall. intros ev Hin. apply in_map_iff in Hin.
      destruct Hin as (x & <- & _). reflexivity. }
  rewrite (filter_none _ (flat_map (xla_conversion o) grads)).
  2:{ apply Forall_forall. intros ev Hin. apply in_flat_map in Hin.
      destruct Hin as ([g|] & _ & Hin); [|destruct Hin].
      simpl in Hin. unfold conversion in Hin.
      destruct (densified o g); [|destruct Hin].
      destruct Hin as [<-|[]]. reflexivity. }
  rewrite (filter_all _ (map (async_call o) _)).
  2:{ apply Forall_forall. intros ev Hin. apply in_map_iff in Hin.
      destruct Hin as (x & <- & _). reflexivity. }
  simpl. rewrite <- app_nil_r. f_equal.
  destruct (traverse _ _); [reflexivity|]. apply device_calls_no_launch.
Qed.

Lemma tf_calls_push_pulls (o : optimizer B) (l : list (option (grad B))) :
  filter is_push_pull (flat_map (tf_calls o) l) = map (sync_call o) (present l).
Proof.
  induction l as [|[g|] l IH]; simpl; [reflexivity| |assumption].
  rewrite <- app_assoc, filter_app. simpl. rewrite IH.
  unfold conversion. destruct (densified o g); reflexivity.
Qed.

Lemma tf_calls_converts (o : optimizer B) (l : list (option (grad B))) :
  filter is_convert (flat_map (tf_calls o) l)
  = map ConvertToTensor (filter (densified o) (present l)).
Proof.
  induction l as [|[g|] l IH]; simpl; [reflexivity| |assumption].
  rewrite <- app_assoc, filter_app. simpl. rewrite IH.
  unfold conversion. destruct (densified o g); reflexivity.
Qed.

Lemma xla_conversion_converts (o : optimizer B) (l : list (option (grad B))) :
  flat_map (xla_conversion o) l
  = map ConvertToTensor (filter (densified o) (present l)).
Proof.
  induction l as [|[g|] l IH]; simpl; [reflexivity| |assumption].
  rewrite IH. unfold conversion. destruct (densified o g); reflexivity.
Qed.

Lemma xla_request_converts (o : optimizer B) grads :
  filter is_convert (xla_request_calls o grads)
  = map ConvertToTensor (filter (densified o) (present grads)).
Proof.
  unfold xla_request_calls, launch_calls.
  rewrite !filter_app, xla_calls_positions, xla_conversion_converts.
  rewrite (filter_none _ (map Stdout grads)).
  2:{ apply Forall_forall. intros ev Hin. apply in_map_iff in Hin.
      destruct Hin as (x & <- & _). reflexivity. }
  rewrite (filter_all _ (map ConvertToTensor _)).
  2:{ apply Forall_forall. intros ev Hin. apply in_map_iff in Hin.
      destruct Hin as (x & <- & _). reflexivity. }
  rewrite (filter_none _ (map (async_call o) _)).
  2:{ apply Forall_forall. intros ev Hin. apply in_map_iff in Hin.
      destruct Hin as (x & <- & _). reflexivity. }
  replace (filter is_convert
             match traverse (xla_outcome o) (enumerate grads 1) with
             | inl _ => []
             | inr rows => device_calls o rows
             end) with (@nil (event B)).
  - simpl. now rewrite !app_nil_r.
  - destruct (traverse _ _); [reflexivity|].
    symmetry. apply device_calls_no_convert.
Qed.

(** A path that did not end in a collaborator's exception ran every
    iteration of its launching loop. *)
Lemma tf_attempted_all (o : optimizer B) grads :
  propagated (traverse (tf_outcome o) grads) = false ->
  attempted (tf_outcome o) grads = grads.
Proof.
  destruct (traverse (tf_outcome o) grads) as [e|out] eqn:Ht.
  - destruct (tf_outcome_raised _ _ _ Ht) as [f ->]. discriminate.
  - intros _. now apply traverse_inr in Ht.
Qed.

Lemma xla_attempted_all (o : optimizer B) grads :
  propagated (xla_request_outcome o grads) = false ->
  attempted (xla_outcome o) (enumerate grads 1) = enumerate grads 1.
Proof.
  unfold xla_request_outcome.
  destruct (traverse (xla_outcome o) (enumerate grads 1)) as [e|rows] eqn:Ht.
  - destruct (xla_outcome_raised _ _ _ Ht) as [f ->]. discriminate.
  - intros _. now apply traverse_inr in Ht.
Qed.

Lemma pushed_positions (o : optimizer B) (grads : list (option (grad B))) s :
  map (fun x => pushed (async_call o x)) (positions (enumerate grads s))
  = map (fun g => Some (handed o g)) (present grads).
Proof.
  revert s; induction grads as [|[g|] grads IH]; intros s;
    cbn [enumerate positions flat_map present fst snd app map];
    [reflexivity| |apply IH].
  fold (positions (enumerate grads (s + 1))). fold (present grads).
  f_equal. apply IH.
Qed.
End ClosedForm.

(** ** Positions and indices *)

Section Positions.
Context {B : Backend}.

Lemma in_enumerate {A} (l : list A) (s i : Z) (x : A) :
  In (i, x) (enumerate l s)
  <-> s <= i /\ nth_error l (Z.to_nat (i - s)) = Some x.
Proof.
  revert s; induction l as [|a l IH]; intros s; simpl.
  - split; [intros [] | intros [_ H]].
    destruct (Z.to_nat (i - s)); discriminate.
  - rewrite IH. split.
    + intros [[= <- <-]|[Hle Hnth]].
      * split; [lia|]. now rewrite Z.sub_diag.
      * split; [lia|].
        replace (Z.to_nat (i - s)) with (S (Z.to_nat (i - (s + 1)))) by lia.
        exact Hnth.
    + intros [Hle Hnth]. destruct (Z.eq_dec i s) as [->|Hne].
      * left. rewrite Z.sub_diag in Hnth. simpl in Hnth. congruence.
      * right. split; [lia|].
        replace (Z.to_nat (i - s)) with (S (Z.to_nat (i - (s + 1)))) in Hnth
          by lia.
        exact Hnth.
Qed.

Lemma in_positions {A} (l : list (Z * option A)) (i : Z) (a : A) :
  In (i, a) (positions l) <-> In (i, Some a) l.
Proof.
  unfold positions. rewrite in_flat_map. split.
  - intros ([j [b|]] & Hin & Hx); simpl in Hx; [|destruct Hx].
    destruct Hx as [[= <- <-]|[]]. exact Hin.
  - intros Hin. exists (i, Some a). split; [exact Hin | now left].
Qed.

(** An entry of [indexed] is a gradient with its 1-based position in the
    whole list. *)
Lemma in_indexed {A} (l : list (option A)) (i : Z) (a : A) :
  In (i, a) (indexed l)
  <-> 1 <= i /\ nth_error l (Z.to_nat (i - 1)) = Some (Some a).
Proof. unfold indexed. now rewrite in_positions, in_enumerate. Qed.

Lemma enumerate_lower {A} (l : list A) (s i : Z) :
  In i (map fst (enumerate l s)) -> s <= i.
Proof.
  intros Hin. apply in_map_iff in Hin. destruct Hin as ([j x] & <- & Hin).
  apply in_enumerate in Hin. simpl. lia.
Qed.

Lemma enumerate_NoDup {A} (l : list A) (s : Z) :
  NoDup (map fst (enumerate l s)).
Proof.
  revert s; induction l as [|a l IH]; intros s; simpl; constructor.
  - intros Hin. apply enumerate_lower in Hin. lia.
  - apply IH.
Qed.

Lemma positions_enumerate_all {A} (xs : list A) (s : Z) :
  positions (enumerate (map Some xs) s) = enumerate xs s.
Proof.
  revert s; induction xs as [|x xs IH]; intros s; [reflexivity|].
  cbn [map enumerate positions flat_map fst snd app].
  fold (positions (enumerate (map Some xs) (s + 1))). now rewrite IH.
Qed.

Lemma positions_fst_incl {A} (l : list (Z * option A)) (i : Z) :
  In i (map fst (positions l)) -> In i (map fst l).
Proof.
  intros Hin. apply in_map_iff in Hin. destruct Hin as ([j a] & <- & Hin).
  apply in_positions in Hin. apply in_map_iff. now exists (j, Some a).
Qed.

Lemma positions_NoDup {A} (l : list (Z * option A)) :
  NoDup (map fst l) -> NoDup (map fst (positions l)).
Proof.
  induction l as [|[i [a|]] l IH]; intros Hnd; simpl in *.
  - constructor.
  - inversion Hnd as [|? ? Hnotin Hnd']; subst. constructor; [|now apply IH].
    intros Hin. apply Hnotin. now apply positions_fst_incl.
  - inversion Hnd; subst. now apply IH.
Qed.

Lemma prefix_NoDup {A X} (k : A -> X) (l done rest : list A) :
  l = done ++ rest -> NoDup (map k l) -> NoDup (map k done).
Proof.
  intros -> Hnd. rewrite map_app in Hnd. now apply NoDup_app_remove_r in Hnd.
Qed.

Lemma NoDup_Some {X} (l : list X) : NoDup l -> NoDup (map Some l).
Proof.
  induction 1 as [|x l Hnotin _ IH]; simpl; constructor; [|exact IH].
  intros Hin. apply in_map_iff in Hin. destruct Hin as (y & [= ->] & Hin).
  contradiction.
Qed.

Lemma NoDup_by_key {A X K} (f : A -> X) (k : A -> K) (l : list A) :
  (forall x y, In x l -> In y l -> f x = f y -> k x = k y) ->
  NoDup (map k l) -> NoDup (map f l).
Proof.
  induction l as [|a l IH]; intros Hkey Hnd; simpl in *; constructor.
  - inversion Hnd as [|? ? Hnotin _]; subst. intros Hin.
    apply in_map_iff in Hin. destruct Hin as (y & Hfy & Hin).
    apply Hnotin. apply in_map_iff. exists y. split; [|exact Hin].
    apply Hkey; auto.
  - inversion Hnd; subst. apply IH; auto.
Qed.

Lemma attempted_incl {A C} (h : A -> error B + C) (l : list A) (x : A) :
  In x (attempted h l) -> In x l.
Proof.
  destruct (attempted_prefix h l) as [rest Hrest]. intros Hin.
  rewrite Hrest. apply in_or_app. now left.
Qed.
End Positions.

(** ** What the device block works on *)

Section Reached.
Context {B : Backend}.

Lemma xla_request_calls_reached (o : optimizer B) grads :
  xla_request_calls o grads
  = launch_calls o grads
    ++ match reached o grads with
       | Some rs => block_calls o rs
       | None => []
       end.
Proof.
  unfold xla_request_calls, reached, device_calls.
  destruct (traverse _ _) as [e|rows]; [reflexivity|].
  destruct (results_of rows) as [[|r rs]|]; reflexivity.
Qed.

Lemma xla_request_outcome_returns (o : optimizer B) grads out :
  xla_request_outcome o grads = inr out ->
  exists rs, reached o grads = Some rs /\ block_outcome o rs = inr out.
Proof.
  unfold xla_request_outcome, reached, device_outcome.
  destruct (traverse _ _) as [e|rows]; [discriminate|].
  destruct (results_of rows) as [[|r rs]|]; try discriminate.
  intros H. now exists (r :: rs).
Qed.

Lemma launch_calls_kinds (o : optimizer B) grads :
  Forall (fun ev => match ev with
                    | Stdout _ | ConvertToTensor _ | PushPullXla _ _ _ _ _ _ =>
                        True
                    | _ => False
                    end) (launch_calls o grads).
Proof.
  unfold launch_calls. rewrite xla_calls_positions, xla_conversion_converts.
  apply Forall_forall. intros ev Hin.
  apply in_app_or in Hin. destruct Hin as [Hin|Hin];
    [|apply in_app_or in Hin; destruct Hin as [Hin|Hin]];
    apply in_map_iff in Hin; destruct Hin as (x & <- & _); exact I.
Qed.

Lemma map_Some_inj {A} (l l' : list A) : map Some l = map Some l' -> l = l'.
Proof.
  revert l'; induction l as [|a l IH]; intros [|a' l']; simpl;
    try discriminate; [reflexivity|].
  intros [= -> H]. f_equal. now apply IH.
Qed.

Lemma lift_inr {A} (r : failure B + A) (a : A) : lift r = inr a -> r = inr a.
Proof. destruct r; simpl; congruence. Qed.

(** The device block is reached only by a request without [None], all of
    whose launches returned; its results are those of the launches, in
    order. *)
Lemma reached_full (o : optimizer B) grads rs :
  reached o grads = Some rs ->
  exists gs,
    grads = map Some gs /\ rs <> [] /\
    Forall2 (fun ig r => launch o ig = inr r) (enumerate gs 1) rs /\
    attempted (xla_outcome o) (enumerate grads 1) = enumerate grads 1.
Proof.
  unfold reached.
  destruct (traverse (xla_outcome o) (enumerate grads 1)) as [e|rows] eqn:Ht;
    [discriminate|].
  destruct (results_of rows) as [[|r rs']|] eqn:Hrows; try discriminate.
  intros [= <-].
  destruct (none_or_all grads) as [Hin|[gs ->]].
  - apply (launched_none _ _ _ _ Ht), results_of_none in Hin. congruence.
  - exists gs. destruct (launched_all _ _ _ _ Ht) as (rs & -> & Hrs).
    rewrite results_of_all in Hrows. injection Hrows as ->.
    repeat split; [discriminate| |now apply traverse_inr in Ht].
    apply traverse_inr in Hrs. destruct Hrs as [_ HF].
    eapply Forall2_impl; [|exact HF]. intros ig r0. apply lift_inr.
Qed.

Lemma reached_none (o : optimizer B) grads :
  In None grads -> reached o grads = None.
Proof.
  intros Hin. destruct (reached o grads) as [rs|] eqn:Hr; [|reflexivity].
  destruct (reached_full _ _ _ Hr) as (gs & -> & _).
  apply in_map_iff in Hin. destruct Hin as (x & Hx & _). discriminate.
Qed.

Lemma block_calls_barriers (o : optimizer B) rs :
  filter is_barrier (block_calls o rs) = [Barrier (handles_of rs)].
Proof.
  unfold block_calls. cbn [filter is_barrier]. f_equal.
  apply filter_none, Forall_forall. intros ev Hin.
  destruct (_my_barrier_handle_out B (handles_of rs)) as [f|bh]; [destruct Hin|].
  apply in_app_or in Hin. destruct Hin as [Hin|Hin].
  - apply in_map_iff in Hin. destruct Hin as (x & <- & _). reflexivity.
  - destruct (traverse _ _); [destruct Hin|].
    apply in_map_iff in Hin. destruct Hin as (x & <- & _). reflexivity.
Qed.

Lemma block_calls_binds (o : optimizer B) rs :
  filter is_sync_tensors (block_calls o rs)
  = match _my_barrier_handle_out B (handles_of rs) with
    | inl _ => []
    | inr bh =>
        map (bind_call bh) (attempted (bind_outcome bh) (bound_pairs rs))
    end.
Proof.
  unfold block_calls. cbn [filter is_sync_tensors].
  destruct (_my_barrier_handle_out B (handles_of rs)) as [f|bh]; [reflexivity|].
  rewrite filter_app, filter_all, filter_none.
  - apply app_nil_r.
  - destruct (traverse _ _); [constructor|].
    apply Forall_forall. intros ev Hin. apply in_map_iff in Hin.
    destruct Hin as (x & <- & _). reflexivity.
  - apply Forall_forall. intros ev Hin. apply in_map_iff in Hin.
    destruct Hin as (x & <- & _). reflexivity.
Qed.

Lemma xla_request_barriers (o : optimizer B) grads :
  filter is_barrier (xla_request_calls o grads)
  = match reached o grads with
    | Some rs => [Barrier (handles_of rs)]
    | None => []
    end.
Proof.
  rewrite xla_request_calls_reached, filter_app, filter_none.
  - destruct (reached o grads); [apply block_calls_barriers | reflexivity].
  - eapply Forall_impl; [|apply launch_calls_kinds]. intros []; simpl; tauto.
Qed.

Lemma xla_request_binds (o : optimizer B) grads :
  filter is_sync_tensors (xla_request_calls o grads)
  = match reached o grads with
    | Some rs => filter is_sync_tensors (block_calls o rs)
    | None => []
    end.
Proof.
  rewrite xla_request_calls_reached, filter_app, filter_none.
  - destruct (reached o grads); reflexivity.
  - eapply Forall_impl; [|apply launch_calls_kinds]. intros []; simpl; tauto.
Qed.

(** What the bind comprehension enumerates: at index [i], the tensor and the
    name that the launch with index [i] returned. *)
Lemma bound_pairs_sound (o : optimizer B) gs rs s idx t n :
  Forall2 (fun ig r => launch o ig = inr r) (enumerate gs s) rs ->
  In (idx, (t, n)) (enumerate (combine (tensors_of rs) (names_of rs)) s) ->
  exists g t' n' h c,
    In (idx, g) (enumerate gs s) /\ launch o (idx, g) = inr (t', n', h, c) /\
    t = ETensor t' /\ n = EName n'.
Proof.
  revert s rs; induction gs as [|g gs IH]; intros s rs HF Hin; simpl in HF.
  - inversion HF; subst. destruct Hin.
  - inversion HF as [|? r ? rs' Hr HF']; subst.
    destruct r as [[[t' n'] h] c]. simpl in Hin.
    destruct Hin as [[= <- <- <-]|Hin].
    + exists g, t', n', h, c. repeat split; auto. now left.
    + destruct (IH _ _ HF' Hin) as (g0 & t0 & n0 & h0 & c0 & Hg & Hl & -> & ->).
      exists g0, t0, n0, h0, c0. repeat split; auto. now right.
Qed.
End Reached.

(** ** Requests that come back *)

Section Returning.
Context {B : Backend}.

(** The direct path keeps the length of the list and the places of the
    [None] entries, whatever the size of the worker group. *)
Lemma direct_path_keeps_positions (grads out : list (option (grad B))) w :
  fst (_push_pull_tf grads w) = inr out ->
  Forall2 (fun g a => is_none g = is_none a) grads out.
Proof.
  destruct (Z.ltb_spec 1 (size B)) as [Hsize|Hsize].
  - rewrite _push_pull_tf_run by assumption. cbn [fst]. intros Ht.
    apply traverse_inr in Ht. destruct Ht as [_ HF].
    eapply Forall2_impl; [|exact HF]. intros [g|] a; simpl.
    + destruct (push_pull B _ _ _ _ _); [discriminate|]. now intros [= <-].
    + now intros [= <-].
  - rewrite _push_pull_tf_alone by assumption. cbn [fst]. intros [= <-].
    induction grads; constructor; auto.
Qed.

(** It comes back unless the collective client raises. *)
Lemma direct_path_returns (grads : list (option (grad B))) w :
  propagated (fst (_push_pull_tf grads w)) = false ->
  exists out, fst (_push_pull_tf grads w) = inr out.
Proof.
  destruct (fst (_push_pull_tf grads w)) as [e|out] eqn:Hr; [|now exists out].
  destruct (Z.ltb_spec 1 (size B)) as [Hsize|Hsize].
  - rewrite _push_pull_tf_run in Hr by assumption. cbn [fst] in Hr.
    destruct (tf_outcome_raised _ _ _ Hr) as [f ->]. discriminate.
  - rewrite _push_pull_tf_alone in Hr by assumption. discriminate.
Qed.

Lemma enumerate_length {A} (l : list A) (s : Z) :
  List.length (enumerate l s) = List.length l.
Proof. revert s; induction l; intros s; simpl; [|rewrite IHl]; reflexivity. Qed.

Lemma bound_pairs_length (rs : list (result B)) :
  List.length (bound_pairs rs) = List.length rs.
Proof.
  unfold bound_pairs, tensors_of, names_of.
  rewrite enumerate_length, length_combine, !length_map. apply Nat.min_id.
Qed.

Lemma present_all {A} (xs : list A) : present (map Some xs) = xs.
Proof. induction xs; simpl; [|rewrite IHxs]; reflexivity. Qed.

Lemma block_outcome_length (o : optimizer B) rs out :
  block_outcome o rs = inr out ->
  List.length out = List.length rs /\ Forall (fun a => is_none a = false) out.
Proof.
  unfold block_outcome.
  destruct (_my_barrier_handle_out B (handles_of rs)) as [f|bh]; [discriminate|].
  destruct (traverse (bind_outcome bh) (bound_pairs rs)) as [e|synced] eqn:Hs;
    [discriminate|].
  destruct (traverse (decompress_outcome o) _) as [e|dec] eqn:Hd;
    [discriminate|].
  intros [= <-]. split.
  - apply traverse_inr in Hs, Hd. destruct Hs as [_ Hs], Hd as [_ Hd].
    apply Forall2_length in Hs, Hd.
    rewrite length_map, <- Hd, length_combine, <- Hs, bound_pairs_length.
    unfold contexts_of. rewrite length_map. apply Nat.min_id.
  - apply Forall_forall. intros a Hin. apply in_map_iff in Hin.
    destruct Hin as (t & <- & _). reflexivity.
Qed.

(** A request that the accelerated path returns held no [None], and comes
    back with its length and without [None]. *)
Lemma accelerated_path_keeps_positions (grads out : list (option (grad B))) w :
  1 < size B ->
  fst (_push_pull_xla grads w) = inr out ->
  List.length out = List.length grads /\
  Forall (fun g => is_none g = false) grads /\
  Forall (fun a => is_none a = false) out.
Proof.
  intros Hsize. rewrite _push_pull_xla_closed by assumption. cbn [fst].
  intros Hout. apply xla_request_outcome_returns in Hout.
  destruct Hout as (rs & Hr & Hb).
  destruct (reached_full _ _ _ Hr) as (gs & -> & _ & HF & _).
  destruct (block_outcome_length _ _ _ Hb) as [Hlen Hsome].
  apply Forall2_length in HF. rewrite enumerate_length in HF.
  repeat split; [rewrite length_map; congruence| |exact Hsome].
  apply Forall_forall. intros g Hin. apply in_map_iff in Hin.
  destruct Hin as (x & <- & _). reflexivity.
Qed.

(** On a request that the accelerated path returns, the barrier is invoked
    once, after all the launches, on the handles that the launches returned:
    one per gradient, in order. *)
Lemma barrier_once_when_request_returns
    (grads out : list (option (grad B))) w :
  1 < size B ->
  fst (_push_pull_xla grads w) = inr out ->
  exists rs rest,
    issued (_push_pull_xla grads) w
    = launch_calls (self (marked w)) grads ++ Barrier (handles_of rs) :: rest /\
    filter is_barrier (issued (_push_pull_xla grads) w)
    = [Barrier (handles_of rs)] /\
    Forall2 (fun ig r => launch (self w) ig = inr r) (indexed grads) rs /\
    List.length (handles_of rs) = List.length (present grads) /\
    filter is_push_pull_xla (launch_calls (self (marked w)) grads)
    = map (async_call (self w)) (indexed grads) /\
    filter is_push_pull_xla rest = [].
Proof.
  intros Hsize. rewrite _push_pull_xla_issued by assumption.
  rewrite _push_pull_xla_closed by assumption. cbn [fst].
  change (launch (self w)) with (launch (self (marked w))).
  change (async_call (self w)) with (async_call (self (marked w))).
  set (o := self (marked w)).
  intros Hout. apply xla_request_outcome_returns in Hout.
  destruct Hout as (rs & Hr & Hb).
  destruct (reached_full _ _ _ Hr) as (gs & -> & _ & HF & Hall).
  pose proof (block_calls_kinds o rs) as Hkinds.
  pose proof (xla_request_launches o (map Some gs)) as Hlaunch.
  rewrite xla_request_barriers.
  rewrite xla_request_calls_reached in *. rewrite Hr in *.
  rewrite filter_app in Hlaunch.
  rewrite (filter_none is_push_pull_xla (block_calls o rs)) in Hlaunch
    by (eapply Forall_impl; [|exact Hkinds]; intros []; simpl; tauto).
  rewrite app_nil_r, Hall in Hlaunch.
  unfold block_calls in *.
  eexists rs, _. repeat split.
  - unfold indexed. now rewrite positions_enumerate_all.
  - unfold handles_of. rewrite length_map, present_all.
    apply Forall2_length in HF. now rewrite enumerate_length in HF.
  - exact Hlaunch.
  - inversion Hkinds as [|? ? _ Hrest]; subst. apply filter_none.
    eapply Forall_impl; [|exact Hrest]. intros []; simpl; tauto.
Qed.
End Returning.

(** ** Loops that succeed, loops that fail *)

Section Outcomes.
Context {B : Backend}.

Lemma traverse_succeeds {A C} (h : A -> error B + C) (l : list A) :
  (forall x, In x l -> exists y, h x = inr y)
  <-> exists ys, traverse h l = inr ys.
Proof.
  induction l as [|x l IH]; simpl.
  - split; [now exists [] | intros _ x []].
  - split.
    + intros H. destruct (H x (or_introl eq_refl)) as [y ->].
      destruct (proj1 IH) as [ys ->]; [intros; apply H; now right|].
      now exists (y :: ys).
    + intros [ys H] a [<-|Hin].
      * destruct (h x) as [e|y]; [discriminate | now exists y].
      * destruct (h x) as [e|y]; [discriminate|].
        destruct (traverse h l) as [e|ys']; [discriminate|].
        apply (proj2 IH); [now exists ys' | exact Hin].
Qed.

Lemma traverse_first_failure {A C} (h : A -> error B + C) done x rest e :
  (forall a, In a done -> exists y, h a = inr y) ->
  h x = inl e ->
  traverse h (done ++ x :: rest) = inl e /\
  attempted h (done ++ x :: rest) = done ++ [x].
Proof.
  intros Hdone Hx. induction done as [|a done IH]; simpl.
  - now rewrite Hx.
  - destruct (Hdone a (or_introl eq_refl)) as [y ->].
    destruct IH as [-> ->]; [intros; apply Hdone; now right|]. now split.
Qed.

Lemma enumerate_app {A} (l l' : list A) (s : Z) :
  enumerate (l ++ l') s
  = enumerate l s ++ enumerate l' (s + Z.of_nat (List.length l)).
Proof.
  revert s; induction l as [|a l IH]; intros s; simpl.
  - now rewrite Z.add_0_r.
  - rewrite IH. do 3 f_equal. lia.
Qed.
End Outcomes.

(** ** The exceptions a method can end in *)

Section Exceptions.
Context {B : Backend}.

Lemma traverse_raised {A C} (h : A -> error B + C) (l : list A) e :
  (forall x e', h x = inl e' -> exists f, e' = Raised f) ->
  traverse h l = inl e -> exists f, e = Raised f.
Proof.
  intros Hh. induction l as [|x l IH]; simpl; [discriminate|].
  destruct (h x) as [e'|y] eqn:Hx.
  - intros [= <-]. now apply (Hh x).
  - destruct (traverse h l); [|discriminate]. intros [= <-]. now apply IH.
Qed.

Lemma lift_raised {A} (r : failure B + A) e :
  lift r = inl e -> exists f, e = Raised f.
Proof. destruct r as [f|a]; simpl; [|discriminate]. intros [= <-]. now exists f. Qed.

Lemma block_outcome_raised (o : optimizer B) rs e :
  block_outcome o rs = inl e -> exists f, e = Raised f.
Proof.
  unfold block_outcome.
  destruct (_my_barrier_handle_out B (handles_of rs)) as [f|bh].
  - intros [= <-]. now exists f.
  - destruct (traverse (bind_outcome bh) (bound_pairs rs)) as [e'|synced] eqn:Hs.
    + intros [= <-]. eapply traverse_raised; [|exact Hs].
      intros x e'' Hx. now apply lift_raised in Hx.
    + destruct (traverse (decompress_outcome o) _) as [e'|dec] eqn:Hd;
        [|discriminate].
      intros [= <-]. eapply traverse_raised; [|exact Hd].
      intros x e'' Hx. now apply lift_raised in Hx.
Qed.

(** A path raises what a collaborator raised, or the [TypeError] or
    [IndexError] of the transposed list; never the [Exception] of
    [apply_gradients]. *)
Lemma bound_not_exception (m : bound_method) grads (w : world B) msg :
  fst (bound m grads w) <> inl (Exception msg).
Proof.
  destruct (Z.ltb_spec 1 (size B)) as [Hsize|Hsize]; destruct m; simpl bound.
  - rewrite _push_pull_tf_run by assumption. cbn [fst]. intros H.
    apply tf_outcome_raised in H. destruct H as [f H]. discriminate.
  - rewrite _push_pull_xla_closed by assumption. cbn [fst].
    unfold xla_request_outcome, device_outcome.
    destruct (traverse _ _) as [e|rows] eqn:Ht.
    + intros [= ->]. apply xla_outcome_raised in Ht.
      destruct Ht as [f Ht]. discriminate.
    + destruct (results_of rows) as [[|r rs]|]; try discriminate.
      intros H. apply block_outcome_raised in H. destruct H as [f H].
      discriminate.
  - rewrite _push_pull_tf_alone by assumption. discriminate.
  - rewrite _push_pull_xla_alone by assumption. discriminate.
Qed.

Lemma super_apply_not_exception u (w : world B) msg :
  fst (super_apply u w) <> inl (Exception msg).
Proof.
  revert w; induction u as [r|f|gv k IH]; intros w; simpl;
    [discriminate|discriminate|].
  rewrite bind_run. unfold _aggregate_gradients, self_push_pull at 1.
  rewrite bind_run. unfold get_self. cbv beta iota.
  pose proof (bound_not_exception (_push_pull (self w)) (map fst gv) w msg)
    as Hb.
  destruct (bound (_push_pull (self w)) (map fst gv) w) as [[e|gs] w'].
  - simpl in *. intros [= ->]. now apply Hb.
  - apply IH.
Qed.

Lemma create_distributed_optimizer_flag name dd ds c sparse_as_dense :
  _aggregated_gradients
    (self (@create_distributed_optimizer B name dd ds c sparse_as_dense))
  = false.
Proof.
  unfold create_distributed_optimizer, __init__, super___init__. simpl.
  destruct (super_init_name B); reflexivity.
Qed.
End Exceptions.

(** ** Indices on the requests that reach the bind step *)

(** On the requests that get as far as the bind step (those without a
    [None], see [reached_full]): every asynchronous push-pull receives as
    [idx] the 1-based position of its gradient in the list, every bind call
    receives the tensor and the name that the push-pull with the same [idx]
    returned, no two calls of a kind share an index, and no two bind calls
    share a name when the client names different indices differently. *)
Lemma indices_are_positions_in_the_whole_list (B : Backend)
    (grads : list (option (grad B))) (w : world B) :
  1 < size B ->
  let o := self w in
  let evs := issued (_push_pull_xla grads) w in
  (forall g' sc dd ds c idx,
      In (PushPullXla g' sc dd ds c idx) evs ->
      exists g,
        1 <= idx /\ nth_error grads (Z.to_nat (idx - 1)) = Some (Some g) /\
        PushPullXla g' sc dd ds c idx = async_call o (idx, g))
  /\ (forall t bh n idx,
         In (SyncTensors t bh n idx) evs ->
         exists g t' n' h c,
           1 <= idx /\ nth_error grads (Z.to_nat (idx - 1)) = Some (Some g) /\
           In (async_call o (idx, g)) evs /\
           launch o (idx, g) = inr (t', n', h, c) /\
           t = ETensor t' /\ n = EName n')
  /\ NoDup (map index_of (filter is_push_pull_xla evs))
  /\ NoDup (map index_of (filter is_sync_tensors evs))
  /\ ((forall i j gi gj ti tj n hi hj ci cj,
          launch o (i, gi) = inr (ti, n, hi, ci) ->
          launch o (j, gj) = inr (tj, n, hj, cj) -> i = j) ->
      NoDup (map name_of (filter is_sync_tensors evs))).
Proof.
  intros Hsize o evs. subst o evs.
  rewrite _push_pull_xla_issued by assumption.
  change (async_call (self w)) with (async_call (self (marked w))).
  change (launch (self w)) with (launch (self (marked w))).
  set (o := self (marked w)).
  assert (Hlaunches : forall ev,
             In ev (filter is_push_pull_xla (xla_request_calls o grads)) ->
             exists ig, In ig (indexed grads) /\ ev = async_call o ig).
  { intros ev Hin. rewrite xla_request_launches in Hin.
    apply in_map_iff in Hin. destruct Hin as ([i g] & <- & Hin).
    exists (i, g). split; [|reflexivity]. unfold indexed.
    apply in_positions in Hin. apply attempted_incl in Hin.
    now apply in_positions. }
  assert (Hbinds : forall rs bh,
             reached o grads = Some rs ->
             forall x, In x (attempted (bind_outcome bh) (bound_pairs rs)) ->
             exists g t' n' h c,
               In (fst x, g) (indexed grads) /\
               In (async_call o (fst x, g)) (xla_request_calls o grads) /\
               launch o (fst x, g) = inr (t', n', h, c) /\
               fst (snd x) = ETensor t' /\ snd (snd x) = EName n').
  { intros rs bh Hr [idx [t n]] Hin. apply attempted_incl in Hin.
    destruct (reached_full _ _ _ Hr) as (gs & -> & _ & HF & Hall).
    destruct (bound_pairs_sound _ _ _ _ _ _ _ HF Hin)
      as (g & t' & n' & h & c & Hg & Hl & -> & ->).
    exists g, t', n', h, c. unfold indexed. rewrite positions_enumerate_all.
    repeat split; auto.
    assert (Hf : In (async_call o (idx, g))
                   (filter is_push_pull_xla
                      (xla_request_calls o (map Some gs)))).
    { rewrite xla_request_launches, Hall, positions_enumerate_all.
      now apply in_map. }
    now apply filter_In in Hf. }
  repeat split.
  - intros g' sc dd ds c idx Hin.
    destruct (Hlaunches (PushPullXla g' sc dd ds c idx)) as ([i g] & Hig & Heq).
    { apply filter_In. now split. }
    assert (i = idx) as -> by (unfold async_call in Heq; simpl in Heq; congruence).
    apply in_indexed in Hig. exists g. tauto.
  - intros t bh n idx Hin.
    assert (Hf : In (SyncTensors t bh n idx)
                   (filter is_sync_tensors (xla_request_calls o grads)))
      by (apply filter_In; now split).
    rewrite xla_request_binds in Hf.
    destruct (reached o grads) as [rs|] eqn:Hr; [|destruct Hf].
    rewrite block_calls_binds in Hf.
    destruct (_my_barrier_handle_out B (handles_of rs)) as [f|bh'];
      [destruct Hf|].
    apply in_map_iff in Hf. destruct Hf as ([i [t0 n0]] & Heq & Hx).
    unfold bind_call in Heq. simpl in Heq. injection Heq as -> -> -> ->.
    destruct (Hbinds rs bh eq_refl _ Hx)
      as (g & t' & n' & h & c & Hg & Ha & Hl & Ht & Hn).
    simpl in *. apply in_indexed in Hg.
    exists g, t', n', h, c. tauto.
  - rewrite xla_request_launches, map_map.
    change (map (fun x => index_of (async_call o x))
              (positions (attempted (xla_outcome o) (enumerate grads 1))))
      with (map (fun x : Z * grad B => Some (fst x))
              (positions (attempted (xla_outcome o) (enumerate grads 1)))).
    rewrite <- (map_map fst Some). apply NoDup_Some, positions_NoDup.
    destruct (attempted_prefix (xla_outcome o) (enumerate grads 1))
      as [rest Hrest].
    eapply prefix_NoDup; [exact Hrest | apply enumerate_NoDup].
  - rewrite xla_request_binds.
    destruct (reached o grads) as [rs|]; [|constructor].
    rewrite block_calls_binds.
    destruct (_my_barrier_handle_out B (handles_of rs)) as [f|bh];
      [constructor|].
    rewrite map_map.
    change (map (fun x => index_of (bind_call bh x))
              (attempted (bind_outcome bh) (bound_pairs rs)))
      with (map (fun x : Z * (cell B * cell B) => Some (fst x))
              (attempted (bind_outcome bh) (bound_pairs rs))).
    rewrite <- (map_map fst Some). apply NoDup_Some.
    destruct (attempted_prefix (bind_outcome bh) (bound_pairs rs))
      as [rest Hrest].
    eapply prefix_NoDup; [exact Hrest | apply enumerate_NoDup].
  - intros Hnames. rewrite xla_request_binds.
    destruct (reached o grads) as [rs|] eqn:Hr; [|constructor].
    rewrite block_calls_binds.
    destruct (_my_barrier_handle_out B (handles_of rs)) as [f|bh];
      [constructor|].
    rewrite map_map.
    apply (NoDup_by_key _ fst).
    + intros x y Hx Hy Hxy.
      destruct (Hbinds rs bh eq_refl _ Hx)
        as (gx & tx & nx & hx & cx & _ & _ & Hlx & _ & Hnx).
      destruct (Hbinds rs bh eq_refl _ Hy)
        as (gy & ty & ny & hy & cy & _ & _ & Hly & _ & Hny).
      unfold bind_call in Hxy. simpl in Hxy. injection Hxy as Hxy.
      rewrite Hnx, Hny in Hxy. injection Hxy as ->.
      eapply Hnames; eauto.
    + destruct (attempted_prefix (bind_outcome bh) (bound_pairs rs))
        as [rest Hrest].
      eapply prefix_NoDup; [exact Hrest | apply enumerate_NoDup].
Qed.

Lemma indices_on_a_full_request :
  1 < size (Fake.backend 2 "1") /\
  filter is_push_pull_xla
    (issued (@_push_pull_xla (Fake.backend 2 "1") Fake.full_request)
       (Fake.fresh 2 "1" true))
  = [Fake.launched 2 "1" (Tensor 5) 1; Fake.launched 2 "1" (Tensor 1007) 2;
     Fake.launched 2 "1" (Tensor 9) 3] /\
  filter is_sync_tensors
    (issued (@_push_pull_xla (Fake.backend 2 "1") Fake.full_request)
       (Fake.fresh 2 "1" true))
  = [Fake.bound_to 2 "1" 5 3 1 1; Fake.bound_to 2 "1" 1007 3 2 2;
     Fake.bound_to 2 "1" 9 3 3 3] /\
  NoDup (map index_of
           (filter is_sync_tensors
              (issued (@_push_pull_xla (Fake.backend 2 "1") Fake.full_request)
                 (Fake.fresh 2 "1" true)))) /\
  NoDup (map name_of
           (filter is_sync_tensors
              (issued (@_push_pull_xla (Fake.backend 2 "1") Fake.full_request)
                 (Fake.fresh 2 "1" true)))).
Proof.
  assert (Hsize : 1 < size (Fake.backend 2 "1")) by (simpl; lia).
  destruct (indices_are_positions_in_the_whole_list (Fake.backend 2 "1")
              Fake.full_request (Fake.fresh 2 "1" true) Hsize)
    as (_ & _ & _ & Hidx & Hname).
  split; [exact Hsize|]. split; [reflexivity|]. split; [reflexivity|].
  split; [exact Hidx|]. apply Hname.
  intros i j gi gj ti tj n hi hj ci cj. unfold launch. simpl.
  unfold Fake.async.
  destruct (Fake.number _ <? 0); [discriminate|].
  destruct (Fake.number _ <? 0); [discriminate|].
  intros [= _ <- _ _] [= _ <- _ _]. reflexivity.
Qed.

(** * The claims *)

(** C1, the accelerated path.  With a worker group of more than one, a
    request that holds a [None] never comes back as a list: the launching
    comprehension leaves the [None] in its result, and [zip( *...)] raises
    [TypeError] on it, unless a launch has raised before. *)
Theorem accelerated_path_raises_on_none (B : Backend)
    (grads : list (option (grad B))) (w : world B) :
  1 < size B ->
  In None grads ->
  fst (_push_pull_xla grads w)
  = inl (TypeError "'NoneType' object is not iterable")
  \/ exists f, fst (_push_pull_xla grads w) = inl (Raised f).
Proof.
  intros Hsize Hin. rewrite _push_pull_xla_closed by assumption. cbn [fst].
  unfold xla_request_outcome, device_outcome.
  destruct (traverse _ _) as [e|rows] eqn:Ht.
  - right. destruct (xla_outcome_raised _ _ _ Ht) as [f ->]. now exists f.
  - left. apply (launched_none _ _ _ _ Ht), results_of_none in Hin.
    now rewrite Hin.
Qed.

Lemma accelerated_path_raises_on_none_witness :
  1 < size (Fake.backend 2 "1") /\
  In None Fake.request /\
  fst (@_push_pull_xla (Fake.backend 2 "1") Fake.request (Fake.fresh 2 "1" true))
  = inl (TypeError "'NoneType' object is not iterable") /\
  fst (@_push_pull_tf (Fake.backend 2 "1") Fake.request (Fake.fresh 2 "1" true))
  = inr [Some (Tensor 5); None; Some (Tensor 1007)].
Proof.
  assert (Hsize : 1 < size (Fake.backend 2 "1")) by (simpl; lia).
  assert (Hin : In None Fake.request) by (right; left; reflexivity).
  split; [exact Hsize|]. split; [exact Hin|]. split; [|reflexivity].
  destruct (accelerated_path_raises_on_none (Fake.backend 2 "1") Fake.request
              (Fake.fresh 2 "1" true) Hsize Hin) as [H|[f H]].
  - exact H.
  - discriminate H.
Defined.

(** C2, on a request that holds a [None].  With a worker group of more
    than one, the asynchronous push-pulls of such a request are issued with
    the 1-based positions in the whole list as indices, but no index ever
    reaches the bind step: the path raises before
    [_sync_tensors_handle_out_v2] is called for any result. *)
Theorem bind_not_reached_with_none (B : Backend)
    (grads : list (option (grad B))) (w : world B) :
  1 < size B ->
  In None grads ->
  filter is_sync_tensors (issued (_push_pull_xla grads) w) = [] /\
  (propagated (fst (_push_pull_xla grads w)) = false ->
   filter is_push_pull_xla (issued (_push_pull_xla grads) w)
   = map (async_call (self w)) (indexed grads)).
Proof.
  intros Hsize Hin. rewrite _push_pull_xla_issued by assumption. split.
  - now rewrite xla_request_binds, reached_none.
  - rewrite _push_pull_xla_closed by assumption. cbn [fst]. intros Hp.
    rewrite xla_request_launches, xla_attempted_all by assumption.
    reflexivity.
Qed.

Lemma bind_not_reached_with_none_witness :
  1 < size (Fake.backend 2 "1") /\
  In None Fake.sparse_request /\
  fst (@_push_pull_xla (Fake.backend 2 "1") Fake.sparse_request
         (Fake.fresh 2 "1" false))
  = inl (TypeError "'NoneType' object is not iterable") /\
  filter is_push_pull_xla
    (issued (@_push_pull_xla (Fake.backend 2 "1") Fake.sparse_request)
       (Fake.fresh 2 "1" false))
  = [Fake.launched 2 "1" (Tensor 5) 1; Fake.launched 2 "1" (Tensor 7) 3;
     Fake.launched 2 "1" (Tensor 9) 5] /\
  filter is_sync_tensors
    (issued (@_push_pull_xla (Fake.backend 2 "1") Fake.sparse_request)
       (Fake.fresh 2 "1" false)) = [].
Proof.
  assert (Hsize : 1 < size (Fake.backend 2 "1")) by (simpl; lia).
  assert (Hin : In None Fake.sparse_request) by (right; left; reflexivity).
  destruct (bind_not_reached_with_none (Fake.backend 2 "1")
              Fake.sparse_request (Fake.fresh 2 "1" false) Hsize Hin)
    as [Hbind Hlaunch].
  split; [exact Hsize|]. split; [exact Hin|]. split; [reflexivity|].
  split; [|exact Hbind]. rewrite Hlaunch; reflexivity.
Defined.

(** C3, on a request that holds a [None].  With a worker group of more than
    one, the accelerated path issues the asynchronous push-pulls of such a
    request and then raises before [_my_barrier_handle_out] is called: the
    barrier is invoked zero times, whatever the number of gradients that are
    not [None]. *)
Theorem barrier_not_reached_with_none (B : Backend)
    (grads : list (option (grad B))) (w : world B) :
  1 < size B ->
  In None grads ->
  filter is_barrier (issued (_push_pull_xla grads) w) = [].
Proof.
  intros Hsize Hin. rewrite _push_pull_xla_issued by assumption.
  now rewrite xla_request_barriers, reached_none.
Qed.

Lemma barrier_not_reached_with_none_witness :
  1 < size (Fake.backend 2 "1") /\
  In None Fake.request /\
  List.length (present Fake.request) = 2%nat /\
  filter is_push_pull_xla
    (issued (@_push_pull_xla (Fake.backend 2 "1") Fake.request)
       (Fake.fresh 2 "1" true))
  = [Fake.launched 2 "1" (Tensor 5) 1; Fake.launched 2 "1" (Tensor 1007) 3] /\
  filter is_barrier
    (issued (@_push_pull_xla (Fake.backend 2 "1") Fake.request)
       (Fake.fresh 2 "1" true)) = [].
Proof.
  assert (Hsize : 1 < size (Fake.backend 2 "1")) by (simpl; lia).
  assert (Hin : In None Fake.request) by (right; left; reflexivity).
  split; [exact Hsize|]. split; [exact Hin|]. split; [reflexivity|].
  split; [reflexivity|].
  exact (barrier_not_reached_with_none (Fake.backend 2 "1") Fake.request
           (Fake.fresh 2 "1" true) Hsize Hin).
Defined.

(** C4. With a worker group of more than one, the push-pull calls of a
    request are those of the gradients that are not [None], in the order of
    the input list and one each: synchronous ones in the direct path,
    asynchronous ones carrying the position in the accelerated path.  The
    sequence is a function of the input list and the configuration of the
    wrapper.  A request that a collaborator's exception cut short has issued
    a prefix of it. *)
Theorem push_pulls_follow_input_order (B : Backend)
    (grads : list (option (grad B))) (w : world B) :
  1 < size B ->
  (exists rest,
      map (sync_call (self w)) (present grads)
      = filter collective (issued (_push_pull_tf grads) w) ++ rest)
  /\ (propagated (fst (_push_pull_tf grads w)) = false ->
      filter collective (issued (_push_pull_tf grads) w)
      = map (sync_call (self w)) (present grads))
  /\ (exists rest,
         map (async_call (self w)) (indexed grads)
         = filter is_push_pull_xla (issued (_push_pull_xla grads) w) ++ rest)
  /\ (propagated (fst (_push_pull_xla grads w)) = false ->
      filter is_push_pull_xla (issued (_push_pull_xla grads) w)
      = map (async_call (self w)) (indexed grads)).
Proof.
  intros Hsize.
  rewrite _push_pull_tf_issued, _push_pull_xla_issued by assumption.
  rewrite _push_pull_tf_run, _push_pull_xla_closed by assumption.
  cbn [fst]. rewrite tf_calls_collective, xla_request_launches.
  change (sync_call (self (marked w))) with (sync_call (self w)).
  change (async_call (self (marked w))) with (async_call (self w)).
  set (o := self (marked w)).
  repeat split.
  - destruct (attempted_prefix (tf_outcome o) grads) as [rest Hrest].
    exists (map (sync_call (self w)) (present rest)).
    rewrite <- map_app, <- present_app. now rewrite <- Hrest.
  - intros Hp. now rewrite tf_attempted_all.
  - destruct (attempted_prefix (xla_outcome o) (enumerate grads 1))
      as [rest Hrest].
    exists (map (async_call (self w)) (positions rest)).
    rewrite <- map_app, <- positions_app. unfold indexed. now rewrite <- Hrest.
  - intros Hp. now rewrite xla_attempted_all.
Qed.

Lemma push_pulls_follow_input_order_witness :
  1 < size (Fake.backend 2 "1") /\
  filter collective
    (issued (@_push_pull_tf (Fake.backend 2 "1")
               Fake.request)
       (Fake.fresh 2 "1" true))
  = [Fake.sync 2 "1" (Tensor 5); Fake.sync 2 "1" (Tensor 1007)] /\
  filter is_push_pull_xla
    (issued (@_push_pull_xla (Fake.backend 2 "1")
               Fake.request)
       (Fake.fresh 2 "1" true))
  = [Fake.launched 2 "1" (Tensor 5) 1; Fake.launched 2 "1" (Tensor 1007) 3].
Proof.
  assert (Hsize : 1 < size (Fake.backend 2 "1")) by (simpl; lia).
  destruct (push_pulls_follow_input_order (Fake.backend 2 "1")
              Fake.request
              (Fake.fresh 2 "1" true) Hsize) as (_ & Htf & _ & Hxla).
  split; [exact Hsize|]. split.
  - rewrite Htf; reflexivity.
  - rewrite Hxla; reflexivity.
Defined.

(** C5. With a worker group of size 1 or less, both aggregation paths return
    the list they were given and make no call into the collective client or
    the compression strategy: no push-pull, no barrier, no bind, no
    decompress. *)
Theorem single_worker_is_a_no_op (B : Backend) (m : bound_method)
    (grads : list (option (grad B))) (w : world B) :
  size B <= 1 ->
  fst (bound m grads w) = inr grads /\
  filter collective (issued (bound m grads) w) = [].
Proof.
  intros Hsize. destruct m; simpl bound.
  - rewrite (issued_add_marked _ w [] (inr grads))
      by (rewrite add_calls_nil; now apply _push_pull_tf_alone).
    rewrite _push_pull_tf_alone by assumption. now split.
  - rewrite (issued_add_marked _ w (map Stdout grads) (inr grads))
      by now apply _push_pull_xla_alone.
    rewrite _push_pull_xla_alone by assumption. split; [reflexivity|].
    apply filter_none, Forall_forall. intros ev Hin.
    apply in_map_iff in Hin. destruct Hin as (x & <- & _). reflexivity.
Qed.

Lemma single_worker_is_a_no_op_witness :
  size (Fake.backend 1 "1") <= 1 /\
  fst (@bound (Fake.backend 1 "1") Bound_push_pull_xla Fake.request
         (Fake.fresh 1 "1" true))
  = inr Fake.request /\
  filter collective
    (issued (@bound (Fake.backend 1 "1") Bound_push_pull_xla
               Fake.request)
       (Fake.fresh 1 "1" true)) = [].
Proof.
  split; [simpl; lia|].
  apply (single_worker_is_a_no_op (Fake.backend 1 "1")). simpl; lia.
Defined.

(** C6, as the code has it.  On a wrapper that has gone through any history
    of method calls since its construction, [apply_gradients] raises the
    exception with the message naming the missing call exactly when no call
    of the history has reached an aggregation path: [_aggregate_gradients]
    always does, [get_gradients] does when [super().get_gradients] has
    returned.  It then calls nothing and leaves the wrapper as it was.
    Otherwise it runs the underlying optimizer's [apply_gradients] and ends
    as that does. *)
Theorem apply_gradients_requires_aggregation (B : Backend)
    name dd ds c sparse_as_dense (history : list (invocation B))
    (args : update_args B) :
  let w := invoke_all history
             (create_distributed_optimizer name dd ds c sparse_as_dense) in
  (fst (apply_gradients args w) = inl (Exception apply_gradients_message)
   <-> existsb aggregates history = false)
  /\ apply_gradients args w
     = (if existsb aggregates history
        then super_apply (super_apply_gradients B args)
               (add_calls [SuperApplyGradients args] w)
        else (inl (Exception apply_gradients_message), w)).
Proof.
  intros w. pose proof (invoke_all_flag history
    (create_distributed_optimizer name dd ds c sparse_as_dense)) as Hflag.
  rewrite create_distributed_optimizer_flag in Hflag. simpl in Hflag.
  fold w in Hflag. rewrite apply_gradients_run, Hflag.
  destruct (existsb aggregates history); split; try reflexivity.
  - split; [|discriminate]. intros H.
    now apply super_apply_not_exception in H.
  - split; reflexivity.
Qed.

(** C6 as the claim has it fails: a [get_gradients] whose
    [super().get_gradients] raises (Keras does for a [None] gradient) is an
    aggregation call that has occurred, yet it leaves the flag unset and
    [apply_gradients] raises the configuration error after it. *)
Lemma apply_gradients_after_raising_get_gradients :
  let history := [@Get_gradients (Fake.backend 2 "0") tt [None]] in
  let w := invoke_all history (Fake.fresh 2 "0" false) in
  ~ (fst (@apply_gradients (Fake.backend 2 "0") tt w)
     = inl (Exception apply_gradients_message)
     <-> existsb named_in_message history = false).
Proof.
  intros history w [H _].
  assert (Hraise : fst (@apply_gradients (Fake.backend 2 "0") tt w)
                   = inl (Exception apply_gradients_message))
    by reflexivity.
  apply H in Hraise. discriminate Hraise.
Qed.

(** C7. The flag [_aggregated_gradients] is false on a freshly constructed
    wrapper; every invocation of either aggregation path leaves it true,
    whatever the size of the worker group and whatever the outcome; and no
    method call clears it: after a call the flag is its value before, or
    true if the call reached an aggregation path. *)
Theorem aggregated_flag_is_a_sentinel (B : Backend) :
  (forall name dd ds c sparse_as_dense,
      _aggregated_gradients (@__init__ B name dd ds c sparse_as_dense) = false)
  /\ (forall m grads (w : world B),
         _aggregated_gradients (self (snd (bound m grads w))) = true)
  /\ (forall (i : invocation B) w,
         _aggregated_gradients (self (invoke i w))
         = _aggregated_gradients (self w) || aggregates i)
  /\ (forall (history : list (invocation B)) w,
         _aggregated_gradients (self (invoke_all history w))
         = _aggregated_gradients (self w) || existsb aggregates history).
Proof.
  split; [|repeat split].
  - intros. unfold __init__, super___init__.
    destruct (super_init_name B); reflexivity.
  - intros. apply bound_flag.
  - intros. apply invoke_flag.
  - intros. apply invoke_all_flag.
Qed.

(** C8. With a worker group of more than one, in both paths, the gradient
    that a push-pull call receives for a gradient [g] of the request is
    [tf.convert_to_tensor(g)] when [_sparse_as_dense] is set and [g] is an
    [IndexedSlices], and [g] itself when the flag is unset or [g] is dense;
    [convert_to_tensor] is called for the former gradients and for no
    other. *)
Theorem sparse_gradients_are_densified (B : Backend)
    (grads : list (option (grad B))) (w : world B) :
  1 < size B ->
  let given := fun g : grad B =>
                 if _sparse_as_dense (self w) && isinstance_IndexedSlices g
                 then Tensor (convert_to_tensor B g)
                 else g in
  let converted := fun g : grad B =>
                     _sparse_as_dense (self w) && isinstance_IndexedSlices g in
  (propagated (fst (_push_pull_tf grads w)) = false ->
   map pushed (filter is_push_pull (issued (_push_pull_tf grads) w))
   = map (fun g => Some (given g)) (present grads) /\
   filter is_convert (issued (_push_pull_tf grads) w)
   = map ConvertToTensor (filter converted (present grads)))
  /\ (propagated (fst (_push_pull_xla grads w)) = false ->
      map pushed (filter is_push_pull_xla (issued (_push_pull_xla grads) w))
      = map (fun g => Some (given g)) (present grads) /\
      filter is_convert (issued (_push_pull_xla grads) w)
      = map ConvertToTensor (filter converted (present grads))).
Proof.
  intros Hsize given converted.
  rewrite _push_pull_tf_issued, _push_pull_xla_issued by assumption.
  rewrite _push_pull_tf_run, _push_pull_xla_closed by assumption.
  cbn [fst].
  rewrite tf_calls_push_pulls, tf_calls_converts, xla_request_launches,
    xla_request_converts.
  change (densified (self (marked w))) with converted.
  set (o := self (marked w)).
  split; intros Hp.
  - rewrite tf_attempted_all by assumption. split; [|reflexivity].
    rewrite map_map. reflexivity.
  - rewrite xla_attempted_all by assumption. split; [|reflexivity].
    rewrite map_map. exact (pushed_positions (self (marked w)) grads 1).
Qed.

Lemma sparse_gradients_are_densified_witness :
  1 < size (Fake.backend 2 "0") /\
  map pushed
    (filter is_push_pull
       (issued (@_push_pull_tf (Fake.backend 2 "0")
                  Fake.request)
          (Fake.fresh 2 "0" true)))
  = [Some (Tensor 5); Some (Tensor 1007)] /\
  filter is_convert
    (issued (@_push_pull_tf (Fake.backend 2 "0")
               Fake.request)
       (Fake.fresh 2 "0" true))
  = [@ConvertToTensor (Fake.backend 2 "0") (IndexedSlices 7)] /\
  map pushed
    (filter is_push_pull_xla
       (issued (@_push_pull_xla (Fake.backend 2 "0")
                  Fake.request)
          (Fake.fresh 2 "0" false)))
  = [Some (Tensor 5); Some (IndexedSlices 7)].
Proof.
  assert (Hsize : 1 < size (Fake.backend 2 "0")) by (simpl; lia).
  destruct (sparse_gradients_are_densified (Fake.backend 2 "0")
              Fake.request
              (Fake.fresh 2 "0" true) Hsize) as [Htf _].
  destruct (sparse_gradients_are_densified (Fake.backend 2 "0")
              Fake.request
              (Fake.fresh 2 "0" false) Hsize) as [_ Hxla].
  destruct (Htf eq_refl) as [H1 H2]. destruct (Hxla eq_refl) as [H3 _].
  split; [exact Hsize|]. split; [|split].
  - rewrite H1; reflexivity.
  - rewrite H2; reflexivity.
  - rewrite H3; reflexivity.
Defined.

(** C9.  In both paths the flag is set before any collective call: when a
    collective call of a request fails (the synchronous push-pull of the
    direct path, the asynchronous one of the accelerated path), also the
    very first one, the path raises the client's exception and the wrapper
    is not left as it was: the flag is true, and a later [apply_gradients]
    does not raise the configuration error but runs the underlying
    optimizer's update step, although no aggregation completed.  The same
    holds when a path ends in any other exception. *)
Theorem failed_aggregation_still_sets_flag (B : Backend)
    (done rest : list (option (grad B))) (g : grad B) (f : failure B)
    (w : world B) (args : update_args B) :
  1 < size B ->
  ((forall g', In (Some g') done ->
       exists avg_grad,
         push_pull B (handed (self w) g') (scope_of (self w))
           (_device_dense (self w)) (_device_sparse (self w))
           (_compression (self w)) = inr avg_grad) ->
   push_pull B (handed (self w) g) (scope_of (self w))
     (_device_dense (self w)) (_device_sparse (self w))
     (_compression (self w)) = inl f ->
   let w' := snd (_push_pull_tf (done ++ Some g :: rest) w) in
   fst (_push_pull_tf (done ++ Some g :: rest) w) = inl (Raised f) /\
   _aggregated_gradients (self w') = true /\
   apply_gradients args w'
   = super_apply (super_apply_gradients B args)
       (add_calls [SuperApplyGradients args] w'))
  /\ ((forall i g', In (i, g') (indexed done) ->
          exists r, launch (self w) (i, g') = inr r) ->
      launch (self w) (1 + Z.of_nat (List.length done), g) = inl f ->
      let w' := snd (_push_pull_xla (done ++ Some g :: rest) w) in
      fst (_push_pull_xla (done ++ Some g :: rest) w) = inl (Raised f) /\
      _aggregated_gradients (self w') = true /\
      apply_gradients args w'
      = super_apply (super_apply_gradients B args)
          (add_calls [SuperApplyGradients args] w'))
  /\ (forall m grads e,
         fst (bound m grads w) = inl e ->
         let w' := snd (bound m grads w) in
         _aggregated_gradients (self w') = true /\
         apply_gradients args w'
         = super_apply (super_apply_gradients B args)
             (add_calls [SuperApplyGradients args] w')).
Proof.
  intros Hsize.
  assert (Hafter : forall m grads,
             let w' := snd (bound m grads w) in
             _aggregated_gradients (self w') = true /\
             apply_gradients args w'
             = super_apply (super_apply_gradients B args)
                 (add_calls [SuperApplyGradients args] w')).
  { intros m grads w'. pose proof (bound_flag m grads w) as Hflag.
    fold w' in Hflag. split; [exact Hflag|].
    now rewrite apply_gradients_run, Hflag. }
  split; [|split].
  - intros Hdone Hg w'. split; [|exact (Hafter Bound_push_pull_tf _)].
    rewrite _push_pull_tf_run by assumption. cbn [fst].
    change (tf_outcome (self (marked w))) with (tf_outcome (self w)).
    apply (traverse_first_failure (tf_outcome (self w)) done (Some g) rest
             (Raised f)).
    + intros [g'|] Hin; unfold tf_outcome; [|now exists None].
      destruct (Hdone g' Hin) as [avg ->]. now exists (Some avg).
    + unfold tf_outcome. now rewrite Hg.
  - intros Hdone Hg w'. split; [|exact (Hafter Bound_push_pull_xla _)].
    rewrite _push_pull_xla_closed by assumption. cbn [fst].
    unfold xla_request_outcome.
    change (xla_outcome (self (marked w))) with (xla_outcome (self w)).
    rewrite enumerate_app. cbn [enumerate].
    destruct (traverse_first_failure (xla_outcome (self w)) (enumerate done 1)
                (1 + Z.of_nat (List.length done), Some g)
                (enumerate rest (1 + Z.of_nat (List.length done) + 1))
                (Raised f)) as [-> _]; [| |reflexivity].
    + intros [i [g'|]] Hin; unfold xla_outcome; cbn [fst snd];
        [|now exists None].
      destruct (Hdone i g') as [r ->]; [now apply in_positions|].
      now exists (Some r).
    + unfold xla_outcome. cbn [fst snd]. now rewrite Hg.
  - intros m grads e _. exact (Hafter m grads).
Qed.

Lemma failed_aggregation_still_sets_flag_witness :
  1 < size (Fake.backend 2 "1") /\
  _aggregated_gradients (self (Fake.fresh 2 "1" false)) = false /\
  (let w' := snd (@_push_pull_tf (Fake.backend 2 "1")
                    ([] ++ Some (Tensor (-1)) :: [Some (Tensor 2)])
                    (Fake.fresh 2 "1" false)) in
   fst (@_push_pull_tf (Fake.backend 2 "1")
          ([] ++ Some (Tensor (-1)) :: [Some (Tensor 2)])
          (Fake.fresh 2 "1" false))
   = inl (@Raised (Fake.backend 2 "1") "worker unreachable"%string) /\
   _aggregated_gradients (self w') = true /\
   fst (@apply_gradients (Fake.backend 2 "1") tt w') = inr 0) /\
  (let w' := snd (@_push_pull_xla (Fake.backend 2 "1")
                    ([] ++ Some (Tensor (-1)) :: [Some (Tensor 2)])
                    (Fake.fresh 2 "1" false)) in
   fst (@_push_pull_xla (Fake.backend 2 "1")
          ([] ++ Some (Tensor (-1)) :: [Some (Tensor 2)])
          (Fake.fresh 2 "1" false))
   = inl (@Raised (Fake.backend 2 "1") "worker unreachable"%string) /\
   _aggregated_gradients (self w') = true /\
   fst (@apply_gradients (Fake.backend 2 "1") tt w') = inr 0).
Proof.
  assert (Hsize : 1 < size (Fake.backend 2 "1")) by (simpl; lia).
  destruct (failed_aggregation_still_sets_flag (Fake.backend 2 "1")
              [] [Some (Tensor 2)] (Tensor (-1)) "worker unreachable"%string
              (Fake.fresh 2 "1" false) tt Hsize) as (Htf & Hxla & _).
  split; [exact Hsize|]. split; [reflexivity|]. split.
  - destruct Htf as (Hraise & Hflag & Happly);
      [intros g' [] | reflexivity |].
    split; [exact Hraise|]. split; [exact Hflag|].
    exact (eq_trans (f_equal fst Happly) eq_refl).
  - destruct Hxla as (Hraise & Hflag & Happly);
      [intros i g' [] | reflexivity |].
    split; [exact Hraise|]. split; [exact Hflag|].
    exact (eq_trans (f_equal fst Happly) eq_refl).
Defined.

(** C10. With a worker group of more than one, the direct path returns the
    empty list for the empty list, and the accelerated path raises
    [IndexError]: the transposed list is empty and its first element is
    taken. *)
Theorem empty_request (B : Backend) (w : world B) :
  1 < size B ->
  fst (_push_pull_tf [] w) = inr [] /\
  fst (_push_pull_xla [] w) = inl (IndexError "list index out of range").
Proof.
  intros Hsize.
  rewrite _push_pull_tf_run, _push_pull_xla_run by assumption.
  split; reflexivity.
Qed.

Lemma empty_request_witness :
  1 < size (Fake.backend 2 "1") /\
  fst (@_push_pull_tf (Fake.backend 2 "1") [] (Fake.fresh 2 "1" true)) = inr [] /\
  fst (@_push_pull_xla (Fake.backend 2 "1") [] (Fake.fresh 2 "1" true))
  = inl (IndexError "list index out of range").
Proof.
  split; [simpl; lia|].
  apply (empty_request (Fake.backend 2 "1")). simpl; lia.
Defined.

(** * Further properties of the two paths *)


(** X1.  The direct path, when it returns, returns a list of the length of
    its input with [None] at the positions of the input's [None] and nowhere
    else, whatever the size of the worker group. *)
Theorem direct_path_preserves_none (B : Backend)
    (grads out : list (option (grad B))) (w : world B) :
  fst (_push_pull_tf grads w) = inr out ->
  List.length out = List.length grads /\
  forall k, nth_error out k = Some None <-> nth_error grads k = Some None.
Proof.
  intros Hout.
  assert (HF : Forall2 (fun g a => is_none g = is_none a) grads out).
  { destruct (Z.ltb_spec 1 (size B)) as [Hsize|Hsize].
    - rewrite _push_pull_tf_run in Hout by assumption. cbn [fst] in Hout.
      apply traverse_inr in Hout. destruct Hout as [_ HF].
      eapply Forall2_impl; [|exact HF]. intros [g|] a; simpl.
      + destruct (push_pull B _ _ _ _ _); [discriminate|]. now intros [= <-].
      + now intros [= <-].
    - rewrite _push_pull_tf_alone in Hout by assumption. cbn [fst] in Hout.
      injection Hout as <-. induction grads; constructor; auto. }
  clear Hout. split.
  - symmetry. now apply Forall2_length in HF.
  - induction HF as [|g a grads out Hga _ IH]; intros k.
    + destruct k; simpl; split; discriminate.
    + destruct k as [|k]; simpl; [|apply IH].
      destruct g, a; simpl in Hga; try discriminate; split; congruence.
Qed.

Lemma direct_path_preserves_none_witness :
  fst (@_push_pull_tf (Fake.backend 2 "0") Fake.request (Fake.fresh 2 "0" true))
  = inr [Some (Tensor 5); None; Some (Tensor 1007)] /\
  List.length [Some (Tensor 5); None; Some (@Tensor Z Z 1007)]
  = List.length Fake.request /\
  (nth_error [Some (Tensor 5); None; Some (@Tensor Z Z 1007)] 1 = Some None
   <-> nth_error Fake.request 1 = Some None).
Proof.
  split; [reflexivity|].
  destruct (direct_path_preserves_none (Fake.backend 2 "0") Fake.request
              [Some (Tensor 5); None; Some (Tensor 1007)]
              (Fake.fresh 2 "0" true) eq_refl) as [Hlen Hnone].
  split; [exact Hlen | exact (Hnone 1%nat)].
Defined.

(** X2.  With a worker group of more than one, every gradient that the
    direct path returns is what [bps.push_pull] returned for the gradient at
    the same position (densified first when that applies), called with the
    scope, devices and compression of the wrapper. *)
Theorem direct_path_outputs (B : Backend)
    (grads out : list (option (grad B))) (w : world B) :
  1 < size B ->
  fst (_push_pull_tf grads w) = inr out ->
  Forall2
    (fun g a =>
       match g with
       | None => a = None
       | Some g =>
           exists avg_grad,
             push_pull B (handed (self w) g) (scope_of (self w))
               (_device_dense (self w)) (_device_sparse (self w))
               (_compression (self w)) = inr avg_grad /\
             a = Some avg_grad
       end) grads out.
Proof.
  intros Hsize. rewrite _push_pull_tf_run by assumption. cbn [fst].
  intros Hout. apply traverse_inr in Hout. destruct Hout as [_ HF].
  change (tf_outcome (self (marked w))) with (tf_outcome (self w)) in HF.
  eapply Forall2_impl; [|exact HF]. intros [g|] a; unfold tf_outcome.
  - destruct (push_pull B _ _ _ _ _) as [f|avg]; [discriminate|].
    intros [= <-]. now exists avg.
  - now intros [= <-].
Qed.

Lemma direct_path_outputs_witness :
  1 < size (Fake.backend 2 "0") /\
  Forall2
    (fun g a =>
       match g with
       | None => a = None
       | Some g =>
           exists avg_grad,
             push_pull (Fake.backend 2 "0")
               (handed (self (Fake.fresh 2 "0" true)) g) Fake.scope tt tt tt
             = inr avg_grad /\
             a = Some avg_grad
       end) Fake.request [Some (Tensor 5); None; Some (Tensor 1007)].
Proof.
  assert (Hsize : 1 < size (Fake.backend 2 "0")) by (simpl; lia).
  split; [exact Hsize|].
  exact (direct_path_outputs (Fake.backend 2 "0") Fake.request
           [Some (Tensor 5); None; Some (Tensor 1007)]
           (Fake.fresh 2 "0" true) Hsize eq_refl).
Defined.

(** X3.  With a worker group of more than one, the direct path returns a
    list exactly when [bps.push_pull] returns for every gradient of the
    request that is not [None]. *)
Theorem direct_path_returns_iff (B : Backend)
    (grads : list (option (grad B))) (w : world B) :
  1 < size B ->
  (exists out, fst (_push_pull_tf grads w) = inr out)
  <-> (forall g, In (Some g) grads ->
         exists avg_grad,
           push_pull B (handed (self w) g) (scope_of (self w))
             (_device_dense (self w)) (_device_sparse (self w))
             (_compression (self w)) = inr avg_grad).
Proof.
  intros Hsize. rewrite _push_pull_tf_run by assumption. cbn [fst].
  change (tf_outcome (self (marked w))) with (tf_outcome (self w)).
  rewrite <- traverse_succeeds. split.
  - intros H g Hin. destruct (H _ Hin) as [y Hy]. unfold tf_outcome in Hy.
    destruct (push_pull B _ _ _ _ _) as [f|avg]; [discriminate|].
    now exists avg.
  - intros H [g|] Hin; unfold tf_outcome; [|now exists None].
    destruct (H g Hin) as [avg ->]. now exists (Some avg).
Qed.

Lemma direct_path_returns_iff_witness :
  1 < size (Fake.backend 2 "0") /\
  (exists out,
      fst (@_push_pull_tf (Fake.backend 2 "0") Fake.request
             (Fake.fresh 2 "0" true)) = inr out) /\
  ~ (exists out,
        fst (@_push_pull_tf (Fake.backend 2 "0")
               [Some (Tensor 5); Some (Tensor (-1))]
               (Fake.fresh 2 "0" true)) = inr out).
Proof.
  assert (Hsize : 1 < size (Fake.backend 2 "0")) by (simpl; lia).
  split; [exact Hsize|]. split.
  - apply (direct_path_returns_iff (Fake.backend 2 "0") Fake.request
             (Fake.fresh 2 "0" true) Hsize).
    intros g [[= <-]|[[=]|[[= <-]|[]]]]; eexists; reflexivity.
  - intros H.
    pose proof (proj1 (direct_path_returns_iff (Fake.backend 2 "0")
                         [Some (Tensor 5); Some (Tensor (-1))]
                         (Fake.fresh 2 "0" true) Hsize) H) as H'.
    destruct (H' (Tensor (-1))) as [avg Havg]; [right; left; reflexivity|].
    discriminate Havg.
Defined.

(** X4.  With a worker group of more than one, when [bps.push_pull] raises
    for a gradient of the request and has returned for those before it, the
    direct path raises that very exception; it has pushed the gradients up
    to and including that one, and pushes none of those after it. *)
Theorem direct_path_stops_at_first_failure (B : Backend)
    (done rest : list (option (grad B))) (g : grad B) (f : failure B)
    (w : world B) :
  1 < size B ->
  (forall g', In (Some g') done ->
      exists avg_grad,
        push_pull B (handed (self w) g') (scope_of (self w))
          (_device_dense (self w)) (_device_sparse (self w))
          (_compression (self w)) = inr avg_grad) ->
  push_pull B (handed (self w) g) (scope_of (self w))
    (_device_dense (self w)) (_device_sparse (self w))
    (_compression (self w)) = inl f ->
  fst (_push_pull_tf (done ++ Some g :: rest) w) = inl (Raised f) /\
  filter collective (issued (_push_pull_tf (done ++ Some g :: rest)) w)
  = map (sync_call (self w)) (present done ++ [g]).
Proof.
  intros Hsize Hdone Hg.
  rewrite _push_pull_tf_issued, _push_pull_tf_run by assumption. cbn [fst].
  destruct (traverse_first_failure (tf_outcome (self (marked w)))
              done (Some g) rest (Raised f)) as [-> ->].
  - change (tf_outcome (self (marked w))) with (tf_outcome (self w)).
    intros [g'|] Hin; unfold tf_outcome; [|now exists None].
    destruct (Hdone g' Hin) as [avg ->]. now exists (Some avg).
  - change (tf_outcome (self (marked w))) with (tf_outcome (self w)).
    unfold tf_outcome. now rewrite Hg.
  - split; [reflexivity|]. rewrite tf_calls_collective, present_app.
    reflexivity.
Qed.

Lemma direct_path_stops_at_first_failure_witness :
  1 < size (Fake.backend 2 "0") /\
  fst (@_push_pull_tf (Fake.backend 2 "0")
         ([Some (Tensor 5); None] ++ Some (Tensor (-1)) :: [Some (Tensor 9)])
         (Fake.fresh 2 "0" true))
  = inl (@Raised (Fake.backend 2 "0") "worker unreachable"%string) /\
  filter collective
    (issued (@_push_pull_tf (Fake.backend 2 "0")
               ([Some (Tensor 5); None] ++ Some (Tensor (-1))
                                        :: [Some (Tensor 9)]))
       (Fake.fresh 2 "0" true))
  = [Fake.sync 2 "0" (Tensor 5); Fake.sync 2 "0" (Tensor (-1))].
Proof.
  assert (Hsize : 1 < size (Fake.backend 2 "0")) by (simpl; lia).
  split; [exact Hsize|].
  apply (direct_path_stops_at_first_failure (Fake.backend 2 "0")
           [Some (Tensor 5); None] [Some (Tensor 9)] (Tensor (-1))
           "worker unreachable"%string (Fake.fresh 2 "0" true) Hsize).
  - intros g' [[= <-]|[[=]|[]]]. eexists; reflexivity.
  - reflexivity.
Defined.

Section DeviceBlock.
Context {B : Backend}.

Lemma block_outcome_inr (o : optimizer B) rs out :
  block_outcome o rs = inr out ->
  exists bh synced dec,
    _my_barrier_handle_out B (handles_of rs) = inr bh /\
    Forall2 (fun x t =>
               _sync_tensors_handle_out_v2 B (fst (snd x)) bh (snd (snd x))
                 (fst x) = inr t) (bound_pairs rs) synced /\
    Forall2 (fun x t => decompress B (_compression o) (fst x) (snd x) = inr t)
            (combine synced (contexts_of rs)) dec /\
    out = map (fun t => Some (Tensor t)) dec.
Proof.
  unfold block_outcome.
  destruct (_my_barrier_handle_out B (handles_of rs)) as [f|bh]; [discriminate|].
  destruct (traverse (bind_outcome bh) (bound_pairs rs)) as [e|synced] eqn:Hs;
    [discriminate|].
  destruct (traverse (decompress_outcome o) _) as [e|dec] eqn:Hd;
    [discriminate|].
  intros [= <-]. exists bh, synced, dec.
  apply traverse_inr in Hs, Hd. destruct Hs as [_ Hs], Hd as [_ Hd].
  repeat split.
  - eapply Forall2_impl; [|exact Hs]. intros x t. apply lift_inr.
  - eapply Forall2_impl; [|exact Hd]. intros x t. apply lift_inr.
Qed.

(** Position by position through launch, bind and decompress. *)
Lemma results_chain (o : optimizer B) (bh : barrier B) gs s rs synced dec :
  Forall2 (fun ig r => launch o ig = inr r) (enumerate gs s) rs ->
  Forall2 (fun x t =>
             _sync_tensors_handle_out_v2 B (fst (snd x)) bh (snd (snd x))
               (fst x) = inr t)
          (enumerate (combine (tensors_of rs) (names_of rs)) s) synced ->
  Forall2 (fun x t => decompress B (_compression o) (fst x) (snd x) = inr t)
          (combine synced (contexts_of rs)) dec ->
  forall k g,
    nth_error gs k = Some g ->
    exists t n h c t1 t2,
      launch o (s + Z.of_nat k, g) = inr (t, n, h, c) /\
      _sync_tensors_handle_out_v2 B (ETensor t) bh (EName n) (s + Z.of_nat k)
      = inr t1 /\
      decompress B (_compression o) t1 (EContext c) = inr t2 /\
      nth_error dec k = Some t2.
Proof.
  revert s rs synced dec.
  induction gs as [|g0 gs IH]; intros s rs synced dec HL HS HD k g Hk.
  - destruct k; discriminate.
  - simpl in HL. inversion HL as [|? r ? rs' Hr HL']; subst.
    destruct r as [[[t n] h] c]. simpl in HS.
    inversion HS as [|? t1 ? synced' Ht1 HS']; subst. simpl in HD.
    inversion HD as [|? t2 ? dec' Ht2 HD']; subst. simpl in Ht1, Ht2.
    destruct k as [|k]; simpl in Hk.
    + injection Hk as <-. exists t, n, h, c, t1, t2.
      simpl Z.of_nat. rewrite Z.add_0_r. auto.
    + destruct (IH _ _ _ _ HL' HS' HD' k g Hk)
        as (t' & n' & h' & c' & t1' & t2' & H1 & H2 & H3 & H4).
      exists t', n', h', c', t1', t2'.
      replace (s + Z.of_nat (S k)) with (s + 1 + Z.of_nat k) by lia. auto.
Qed.
End DeviceBlock.

(** X5.  With a worker group of more than one, a request that the
    accelerated path returns held no [None]; the list that comes back has
    the length of the request and holds no [None]. *)
Theorem accelerated_path_returns_full_lists (B : Backend)
    (grads out : list (option (grad B))) (w : world B) :
  1 < size B ->
  fst (_push_pull_xla grads w) = inr out ->
  List.length out = List.length grads /\
  ~ In None grads /\ ~ In None out.
Proof.
  intros Hsize Hout.
  destruct (accelerated_path_keeps_positions grads out w Hsize Hout)
    as (Hlen & Hg & Ho).
  split; [exact Hlen|].
  split; intros Hin;
    [apply (proj1 (Forall_forall _ _) Hg) in Hin
    |apply (proj1 (Forall_forall _ _) Ho) in Hin]; discriminate.
Qed.

Lemma accelerated_path_returns_full_lists_witness :
  1 < size (Fake.backend 2 "1") /\
  fst (@_push_pull_xla (Fake.backend 2 "1") Fake.full_request
         (Fake.fresh 2 "1" true))
  = inr [Some (Tensor 5); Some (Tensor 1007); Some (Tensor 9)] /\
  List.length [Some (@Tensor Z Z 5); Some (Tensor 1007); Some (Tensor 9)]
  = List.length Fake.full_request /\
  ~ In None Fake.full_request.
Proof.
  assert (Hsize : 1 < size (Fake.backend 2 "1")) by (simpl; lia).
  destruct (accelerated_path_returns_full_lists (Fake.backend 2 "1")
              Fake.full_request
              [Some (Tensor 5); Some (Tensor 1007); Some (Tensor 9)]
              (Fake.fresh 2 "1" true) Hsize eq_refl) as (Hlen & Hg & _).
  split; [exact Hsize|]. split; [reflexivity|]. split; assumption.
Defined.

(** X6.  With a worker group of more than one, on a request that the
    accelerated path returns, [_my_barrier_handle_out] is called exactly
    once; its argument holds the handles that the asynchronous push-pulls
    returned, one per gradient and in order; every asynchronous push-pull is
    in the log before that call and none after it. *)
Theorem barrier_once_after_all_launches (B : Backend)
    (grads out : list (option (grad B))) (w : world B) :
  1 < size B ->
  fst (_push_pull_xla grads w) = inr out ->
  exists rs before rest,
    Forall2 (fun ig r => launch (self w) ig = inr r) (indexed grads) rs /\
    List.length (handles_of rs) = List.length grads /\
    issued (_push_pull_xla grads) w
    = before ++ Barrier (handles_of rs) :: rest /\
    filter is_barrier (issued (_push_pull_xla grads) w)
    = [Barrier (handles_of rs)] /\
    filter is_push_pull_xla before
    = map (async_call (self w)) (indexed grads) /\
    filter is_push_pull_xla rest = [].
Proof.
  intros Hsize Hout.
  destruct (barrier_once_when_request_returns grads out w Hsize Hout)
    as (rs & rest & Hissued & Hbar & HF & Hlen & Hbefore & Hrest).
  destruct (accelerated_path_keeps_positions grads out w Hsize Hout)
    as (_ & Hg & _).
  exists rs, (launch_calls (self (marked w)) grads), rest.
  repeat split; auto.
  rewrite Hlen. clear - Hg.
  induction Hg as [|[g|] grads Hx _ IH]; simpl; [reflexivity| |discriminate].
  now rewrite IH.
Qed.

Lemma barrier_once_after_all_launches_witness :
  1 < size (Fake.backend 2 "1") /\
  fst (@_push_pull_xla (Fake.backend 2 "1") Fake.full_request
         (Fake.fresh 2 "1" true))
  = inr [Some (Tensor 5); Some (Tensor 1007); Some (Tensor 9)] /\
  filter is_barrier
    (issued (@_push_pull_xla (Fake.backend 2 "1") Fake.full_request)
       (Fake.fresh 2 "1" true))
  = [@Barrier (Fake.backend 2 "1") [EHandle 101; EHandle 102; EHandle 103]] /\
  exists rs before rest,
    Forall2 (fun ig r => launch (self (Fake.fresh 2 "1" true)) ig = inr r)
            (indexed Fake.full_request) rs /\
    List.length (handles_of rs) = List.length Fake.full_request /\
    issued (@_push_pull_xla (Fake.backend 2 "1") Fake.full_request)
      (Fake.fresh 2 "1" true)
    = before ++ Barrier (handles_of rs) :: rest /\
    filter is_barrier
      (issued (@_push_pull_xla (Fake.backend 2 "1") Fake.full_request)
         (Fake.fresh 2 "1" true))
    = [Barrier (handles_of rs)] /\
    filter is_push_pull_xla before
    = map (async_call (self (Fake.fresh 2 "1" true)))
          (indexed Fake.full_request) /\
    filter is_push_pull_xla rest = [].
Proof.
  assert (Hsize : 1 < size (Fake.backend 2 "1")) by (simpl; lia).
  split; [exact Hsize|]. split; [reflexivity|]. split; [reflexivity|].
  exact (barrier_once_after_all_launches (Fake.backend 2 "1")
           Fake.full_request
           [Some (Tensor 5); Some (Tensor 1007); Some (Tensor 9)]
           (Fake.fresh 2 "1" true) Hsize eq_refl).
Defined.

(** X7.  With a worker group of more than one, on a request that the
    accelerated path returns, the gradient at every position of the result
    is the launch of the gradient at that position carried through: its
    tensor bound to the barrier of all the handles under its own name and
    1-based position, then decompressed with its own context. *)
Theorem accelerated_path_outputs (B : Backend)
    (grads out : list (option (grad B))) (w : world B) :
  1 < size B ->
  fst (_push_pull_xla grads w) = inr out ->
  exists rs bh,
    Forall2 (fun ig r => launch (self w) ig = inr r) (indexed grads) rs /\
    _my_barrier_handle_out B (handles_of rs) = inr bh /\
    forall k g,
      nth_error grads k = Some (Some g) ->
      exists t n h c t1 t2,
        launch (self w) (1 + Z.of_nat k, g) = inr (t, n, h, c) /\
        _sync_tensors_handle_out_v2 B (ETensor t) bh (EName n)
          (1 + Z.of_nat k) = inr t1 /\
        decompress B (_compression (self w)) t1 (EContext c) = inr t2 /\
        nth_error out k = Some (Some (Tensor t2)).
Proof.
  intros Hsize. rewrite _push_pull_xla_closed by assumption. cbn [fst].
  change (launch (self w)) with (launch (self (marked w))).
  change (_compression (self w)) with (_compression (self (marked w))).
  set (o := self (marked w)).
  intros Hout. apply xla_request_outcome_returns in Hout.
  destruct Hout as (rs & Hr & Hb).
  destruct (reached_full _ _ _ Hr) as (gs & -> & _ & HF & _).
  destruct (block_outcome_inr _ _ _ Hb) as (bh & synced & dec & Hbh & HS & HD & ->).
  exists rs, bh. unfold indexed. rewrite positions_enumerate_all.
  repeat split; auto.
  intros k g Hk. rewrite nth_error_map in Hk.
  destruct (nth_error gs k) as [g'|] eqn:Hg; [|discriminate].
  injection Hk as ->.
  destruct (results_chain o bh gs 1 rs synced dec HF HS HD k g Hg)
    as (t & n & h & c & t1 & t2 & H1 & H2 & H3 & H4).
  exists t, n, h, c, t1, t2. repeat split; auto.
  rewrite nth_error_map, H4. reflexivity.
Qed.

Lemma accelerated_path_outputs_witness :
  1 < size (Fake.backend 2 "1") /\
  exists rs bh,
    Forall2 (fun ig r => launch (self (Fake.fresh 2 "1" true)) ig = inr r)
            (indexed Fake.full_request) rs /\
    _my_barrier_handle_out (Fake.backend 2 "1") (handles_of rs) = inr bh /\
    forall k g,
      nth_error Fake.full_request k = Some (Some g) ->
      exists t n h c t1 t2,
        launch (self (Fake.fresh 2 "1" true)) (1 + Z.of_nat k, g)
        = inr (t, n, h, c) /\
        _sync_tensors_handle_out_v2 (Fake.backend 2 "1") (ETensor t) bh
          (EName n) (1 + Z.of_nat k) = inr t1 /\
        decompress (Fake.backend 2 "1")
          (_compression (self (Fake.fresh 2 "1" true))) t1 (EContext c)
        = inr t2 /\
        nth_error [Some (@Tensor Z Z 5); Some (Tensor 1007); Some (Tensor 9)] k
        = Some (Some (Tensor t2)).
Proof.
  assert (Hsize : 1 < size (Fake.backend 2 "1")) by (simpl; lia).
  split; [exact Hsize|].
  exact (accelerated_path_outputs (Fake.backend 2 "1") Fake.full_request
           [Some (Tensor 5); Some (Tensor 1007); Some (Tensor 9)]
           (Fake.fresh 2 "1" true) Hsize eq_refl).
Defined.

Section Launching.
Context {B : Backend}.

Lemma launch_calls_collective (o : optimizer B) grads :
  filter collective (launch_calls o grads)
  = map (async_call o)
      (positions (attempted (xla_outcome o) (enumerate grads 1))).
Proof.
  unfold launch_calls.
  rewrite !filter_app, xla_calls_positions, xla_conversion_converts.
  rewrite (filter_none _ (map Stdout grads)).
  2:{ apply Forall_forall. intros ev Hin. apply in_map_iff in Hin.
      destruct Hin as (x & <- & _). reflexivity. }
  rewrite (filter_none _ (map ConvertToTensor _)).
  2:{ apply Forall_forall. intros ev Hin. apply in_map_iff in Hin.
      destruct Hin as (x & <- & _). reflexivity. }
  rewrite (filter_all _ (map (async_call o) _)).
  2:{ apply Forall_forall. intros ev Hin. apply in_map_iff in Hin.
      destruct Hin as (x & <- & _). reflexivity. }
  reflexivity.
Qed.

(** The cells that the bind and decompress comprehensions see. *)
Lemma bound_pairs_shape (rs : list (result B)) x :
  In x (bound_pairs rs) ->
  exists t n, snd x = (ETensor t, EName n).
Proof.
  destruct x as [i [t n]]. unfold bound_pairs. intros Hin.
  apply in_enumerate in Hin. destruct Hin as [_ Hin].
  apply nth_error_In in Hin. pose proof (in_combine_l _ _ _ _ Hin) as Ht.
  apply in_combine_r in Hin. unfold tensors_of, names_of in *.
  apply in_map_iff in Ht, Hin.
  destruct Ht as ([[[t' ?] ?] ?] & <- & _).
  destruct Hin as ([[[? n'] ?] ?] & <- & _). now exists t', n'.
Qed.

Lemma contexts_shape (rs : list (result B)) (synced : list (tensor B)) x :
  In x (combine synced (contexts_of rs)) -> exists c, snd x = EContext c.
Proof.
  destruct x as [t ctx]. intros Hin. apply in_combine_r in Hin.
  unfold contexts_of in Hin. apply in_map_iff in Hin.
  destruct Hin as ([[[? ?] ?] c] & <- & _). now exists c.
Qed.
End Launching.

(** X8.  With a worker group of more than one, when an asynchronous
    push-pull raises and those before it have returned, the accelerated path
    raises that very exception; the collective calls it has made are the
    launches up to and including that one: no launch of a later gradient, no
    barrier, no bind, no decompress. *)
Theorem accelerated_path_stops_at_first_failed_launch (B : Backend)
    (done rest : list (option (grad B))) (g : grad B) (f : failure B)
    (w : world B) :
  1 < size B ->
  (forall i g', In (i, g') (indexed done) ->
      exists r, launch (self w) (i, g') = inr r) ->
  launch (self w) (1 + Z.of_nat (List.length done), g) = inl f ->
  fst (_push_pull_xla (done ++ Some g :: rest) w) = inl (Raised f) /\
  filter collective (issued (_push_pull_xla (done ++ Some g :: rest)) w)
  = map (async_call (self w))
        (indexed done ++ [(1 + Z.of_nat (List.length done), g)]).
Proof.
  intros Hsize Hdone Hg.
  rewrite _push_pull_xla_issued, _push_pull_xla_closed by assumption.
  cbn [fst]. revert Hdone Hg.
  change (launch (self w)) with (launch (self (marked w))).
  change (async_call (self w)) with (async_call (self (marked w))).
  set (o := self (marked w)). intros Hdone Hg.
  destruct (traverse_first_failure (xla_outcome o) (enumerate done 1)
              (1 + Z.of_nat (List.length done), Some g)
              (enumerate rest (1 + Z.of_nat (List.length done) + 1))
              (Raised f)) as [Ht Ha].
  - intros [i [g'|]] Hin; unfold xla_outcome; cbn [fst snd];
      [|now exists None].
    destruct (Hdone i g') as [r ->]; [now apply in_positions|].
    now exists (Some r).
  - unfold xla_outcome. cbn [fst snd]. now rewrite Hg.
  - unfold xla_request_outcome, xla_request_calls.
    rewrite filter_app, launch_calls_collective.
    rewrite enumerate_app. cbn [enumerate]. rewrite Ht, Ha.
    split; [reflexivity|]. cbn [filter]. rewrite app_nil_r.
    rewrite positions_app. reflexivity.
Qed.

Lemma accelerated_path_stops_at_first_failed_launch_witness :
  1 < size (Fake.backend 2 "1") /\
  fst (@_push_pull_xla (Fake.backend 2 "1")
         ([Some (Tensor 5); None] ++ Some (Tensor (-1)) :: [Some (Tensor 9)])
         (Fake.fresh 2 "1" true))
  = inl (@Raised (Fake.backend 2 "1") "worker unreachable"%string) /\
  filter collective
    (issued (@_push_pull_xla (Fake.backend 2 "1")
               ([Some (Tensor 5); None] ++ Some (Tensor (-1))
                                        :: [Some (Tensor 9)]))
       (Fake.fresh 2 "1" true))
  = [Fake.launched 2 "1" (Tensor 5) 1; Fake.launched 2 "1" (Tensor (-1)) 3].
Proof.
  assert (Hsize : 1 < size (Fake.backend 2 "1")) by (simpl; lia).
  split; [exact Hsize|].
  apply (accelerated_path_stops_at_first_failed_launch (Fake.backend 2 "1")
           [Some (Tensor 5); None] [Some (Tensor 9)] (Tensor (-1))
           "worker unreachable"%string (Fake.fresh 2 "1" true) Hsize).
  - intros i g' [[= <- <-]|[]]. eexists; reflexivity.
  - reflexivity.
Defined.

(** X9.  With a worker group of more than one, the accelerated path returns
    a list for every request that is not empty and holds no [None],
    provided the collaborators return: the launches of its gradients, the
    barrier, the binds of tensors under names, and the decompressions with
    contexts. *)
Theorem accelerated_path_returns (B : Backend)
    (grads : list (option (grad B))) (w : world B) :
  1 < size B ->
  grads <> [] ->
  ~ In None grads ->
  (forall i g, In (i, g) (indexed grads) ->
      exists r, launch (self w) (i, g) = inr r) ->
  (forall hs, exists bh, _my_barrier_handle_out B hs = inr bh) ->
  (forall t bh n i,
      exists t', _sync_tensors_handle_out_v2 B (ETensor t) bh (EName n) i
                 = inr t') ->
  (forall t c,
      exists t', decompress B (_compression (self w)) t (EContext c)
                 = inr t') ->
  exists out, fst (_push_pull_xla grads w) = inr out.
Proof.
  intros Hsize Hne Hnone Hl Hb Hs Hd.
  rewrite _push_pull_xla_closed by assumption. cbn [fst]. revert Hl Hd.
  change (launch (self w)) with (launch (self (marked w))).
  change (_compression (self w)) with (_compression (self (marked w))).
  set (o := self (marked w)). intros Hl Hd.
  destruct (none_or_all grads) as [Hin|[gs ->]]; [contradiction|].
  unfold xla_request_outcome, device_outcome.
  destruct (proj1 (traverse_succeeds (xla_outcome o)
                     (enumerate (map Some gs) 1))) as [rows Hrows].
  { intros [i [g|]] Hin; unfold xla_outcome; cbn [fst snd];
      [|now exists None].
    destruct (Hl i g) as [r ->]; [now apply in_positions|].
    now exists (Some r). }
  rewrite Hrows. destruct (launched_all _ _ _ _ Hrows) as (rs & -> & Hrs).
  rewrite results_of_all.
  destruct rs as [|r rs].
  { destruct gs; [now elim Hne|].
    apply traverse_inr in Hrs. destruct Hrs as [_ Hrs].
    apply Forall2_length in Hrs. discriminate Hrs. }
  unfold block_outcome. destruct (Hb (handles_of (r :: rs))) as [bh ->].
  destruct (proj1 (traverse_succeeds (bind_outcome bh)
                     (bound_pairs (r :: rs)))) as [synced ->].
  { intros x Hin. destruct (bound_pairs_shape _ _ Hin) as (t & n & Hx).
    unfold bind_outcome. rewrite Hx. cbn [fst snd].
    destruct (Hs t bh n (fst x)) as [t' ->]. now exists t'. }
  destruct (proj1 (traverse_succeeds (decompress_outcome o)
                     (combine synced (contexts_of (r :: rs))))) as [dec ->].
  { intros x Hin. destruct (contexts_shape _ _ _ Hin) as (c & Hx).
    unfold decompress_outcome. rewrite Hx.
    destruct (Hd (fst x) c) as [t' ->]. now exists t'. }
  eexists. reflexivity.
Qed.

Lemma accelerated_path_returns_witness :
  1 < size (Fake.backend 2 "1") /\
  Fake.full_request <> [] /\
  ~ In None Fake.full_request /\
  exists out,
    fst (@_push_pull_xla (Fake.backend 2 "1") Fake.full_request
           (Fake.fresh 2 "1" true)) = inr out.
Proof.
  assert (Hsize : 1 < size (Fake.backend 2 "1")) by (simpl; lia).
  assert (Hne : Fake.full_request <> []) by discriminate.
  assert (Hnone : ~ In None Fake.full_request).
  { intros [H|[H|[H|[]]]]; discriminate H. }
  split; [exact Hsize|]. split; [exact Hne|]. split; [exact Hnone|].
  apply (accelerated_path_returns (Fake.backend 2 "1") Fake.full_request
           (Fake.fresh 2 "1" true) Hsize Hne Hnone).
  - intros i g [[= <- <-]|[[= <- <-]|[[= <- <-]|[]]]]; eexists; reflexivity.
  - intros hs. eexists; reflexivity.
  - intros t bh n i. eexists; reflexivity.
  - intros t c. eexists; reflexivity.
Defined.

(** * Further properties of the wrapper *)

Section Wrapper.
Context {B : Backend}.

Lemma invoke_configuration (i : invocation B) (w : world B) :
  self (invoke i w) = if aggregates i then self (marked w) else self w.
Proof.
  destruct i; simpl.
  - rewrite get_gradients_run.
    destruct (super_get_gradients B l p) as [f|gradients]; [reflexivity|].
    destruct (self_push_pull_world gradients
                (add_calls [SuperGetGradients l p] w)) as [evs ->].
    reflexivity.
  - unfold _aggregate_gradients.
    destruct (self_push_pull_world (map fst grads_and_vars) w) as [evs ->].
    reflexivity.
  - destruct (bound_world m gradients w) as [evs ->]. reflexivity.
  - apply apply_gradients_self.
Qed.

Lemma marked_self_eq (w1 w2 : world B) :
  self w1 = self w2 -> self (marked w1) = self (marked w2).
Proof. unfold marked. simpl. now intros ->. Qed.

Lemma invoke_all_configuration (history : list (invocation B)) (w : world B) :
  self (invoke_all history w)
  = if existsb aggregates history then self (marked w) else self w.
Proof.
  unfold invoke_all.
  revert w; induction history as [|i history IH]; intros w;
    cbn [fold_left existsb]; [reflexivity|].
  rewrite IH. pose proof (invoke_configuration i w) as Hi.
  destruct (aggregates i); cbn [orb].
  - rewrite Hi, (marked_self_eq (invoke i w) (marked w) Hi).
    destruct (existsb aggregates history); reflexivity.
  - now rewrite Hi, (marked_self_eq (invoke i w) w Hi).
Qed.

(** Every call of a path carries the configuration of the wrapper. *)
Lemma bound_calls_configured (m : bound_method) grads (w : world B) :
  Forall (fun ev =>
            match ev with
            | PushPull _ sc d1 d2 c | PushPullXla _ sc d1 d2 c _ =>
                sc = scope_of (self w) /\ d1 = _device_dense (self w) /\
                d2 = _device_sparse (self w) /\ c = _compression (self w)
            | Decompress c _ _ => c = _compression (self w)
            | _ => True
            end) (issued (bound m grads) w).
Proof.
  apply Forall_forall. intros ev Hin.
  destruct (Z.ltb_spec 1 (size B)) as [Hsize|Hsize]; destruct m;
    simpl bound in Hin.
  - rewrite _push_pull_tf_issued in Hin by assumption.
    apply in_flat_map in Hin. destruct Hin as ([g|] & _ & Hin);
      [|destruct Hin].
    simpl in Hin. apply in_app_or in Hin. destruct Hin as [Hin|[<-|[]]].
    + unfold conversion in Hin. destruct (densified _ g); [|destruct Hin].
      destruct Hin as [<-|[]]. exact I.
    + repeat split.
  - rewrite _push_pull_xla_issued, xla_request_calls_reached in Hin
      by assumption.
    apply in_app_or in Hin. destruct Hin as [Hin|Hin].
    + unfold launch_calls in Hin.
      rewrite xla_calls_positions, xla_conversion_converts in Hin.
      apply in_app_or in Hin. destruct Hin as [Hin|Hin];
        [|apply in_app_or in Hin; destruct Hin as [Hin|Hin]];
        apply in_map_iff in Hin; destruct Hin as (x & <- & _);
        try exact I.
      repeat split.
    + destruct (reached _ grads) as [rs|]; [|destruct Hin].
      unfold block_calls in Hin. destruct Hin as [<-|Hin]; [exact I|].
      destruct (_my_barrier_handle_out B (handles_of rs)) as [f|bh];
        [destruct Hin|].
      apply in_app_or in Hin. destruct Hin as [Hin|Hin].
      * apply in_map_iff in Hin. destruct Hin as (x & <- & _). exact I.
      * destruct (traverse _ _); [destruct Hin|].
        apply in_map_iff in Hin. destruct Hin as (x & <- & _). reflexivity.
  - rewrite (issued_add_marked _ w [] (inr grads)) in Hin
      by (rewrite add_calls_nil; now apply _push_pull_tf_alone).
    destruct Hin.
  - rewrite (issued_add_marked _ w (map Stdout grads) (inr grads)) in Hin
      by now apply _push_pull_xla_alone.
    apply in_map_iff in Hin. destruct Hin as (x & <- & _). exact I.
Qed.

Lemma issued_self_push_pull grads (w : world B) :
  issued (self_push_pull grads) w = issued (bound (_push_pull (self w)) grads) w.
Proof. reflexivity. Qed.
End Wrapper.

(** X11.  No method of the wrapper changes what [__init__] stored apart from
    the flag: after any history of method calls the name, the devices, the
    compression, [_sparse_as_dense] and the bound [_push_pull] are those of
    the start. *)
Theorem configuration_is_never_changed (B : Backend)
    (history : list (invocation B)) (w : world B) :
  let o := self w in
  let o' := self (invoke_all history w) in
  _name o' = _name o /\
  _device_dense o' = _device_dense o /\
  _device_sparse o' = _device_sparse o /\
  _compression o' = _compression o /\
  _sparse_as_dense o' = _sparse_as_dense o /\
  _push_pull o' = _push_pull o.
Proof.
  intros o o'. subst o o'. rewrite invoke_all_configuration.
  destruct (existsb aggregates history); repeat split.
Qed.

(** X12.  The path is chosen once, from the environment value read at import
    ([enable_xla], with only the exact string "1" selecting the accelerated
    path), and stays chosen: on a wrapper with any history of method calls
    behind it, [_aggregate_gradients] runs that path on the gradients of its
    pairs, and [get_gradients] runs it on the gradients that
    [super().get_gradients] returns, or raises what that raises. *)
Theorem aggregation_dispatches_on_enable_xla (B : Backend)
    name dd ds c sparse_as_dense (history : list (invocation B))
    (grads_and_vars : list (option (grad B) * variable B))
    (l : loss B) (p : params B) :
  let w := invoke_all history
             (create_distributed_optimizer name dd ds c sparse_as_dense) in
  let path := if String.eqb (enable_xla B) "1"
              then _push_pull_xla
              else _push_pull_tf in
  _aggregate_gradients grads_and_vars w = path (map fst grads_and_vars) w /\
  get_gradients l p w
  = match super_get_gradients B l p with
    | inr gradients => path gradients (add_calls [SuperGetGradients l p] w)
    | inl f => (inl (Raised f), add_calls [SuperGetGradients l p] w)
    end.
Proof.
  intros w path.
  assert (Hm : _push_pull (self w)
               = if String.eqb (enable_xla B) "1"
                 then Bound_push_pull_xla else Bound_push_pull_tf).
  { subst w. rewrite invoke_all_configuration.
    unfold create_distributed_optimizer, __init__, super___init__.
    destruct (existsb aggregates history), (super_init_name B); reflexivity. }
  rewrite get_gradients_run.
  unfold _aggregate_gradients, self_push_pull.
  rewrite !bind_run. unfold get_self. cbv beta iota.
  change (self (add_calls [SuperGetGradients l p] w)) with (self w).
  rewrite Hm. subst path.
  destruct (String.eqb (enable_xla B) "1"), (super_get_gradients B l p);
    split; try reflexivity.
  all: rewrite bind_run; cbv beta iota;
    change (self (add_calls [SuperGetGradients l p] w)) with (self w);
    now rewrite Hm.
Qed.

(** X13.  Every call that the first aggregation on a wrapper built by
    [create_distributed_optimizer] makes into the collective client carries
    the devices and the compression given at construction, and the scope
    that [name_scope] yields for the wrapper's name followed by
    "_Push_Pull".  That name is the one the base constructor assigns when it
    assigns one (the config's name with OptimizerV2, so that the [name]
    argument never reaches the scope); otherwise it is the [name] argument,
    with "Distributed" and the base class's name standing in for a name that
    is [None] or empty. *)
Theorem calls_carry_construction_arguments (B : Backend)
    name dd ds c sparse_as_dense
    (grads_and_vars : list (option (grad B) * variable B)) :
  let w := create_distributed_optimizer name dd ds c sparse_as_dense in
  let name_of_wrapper :=
    match super_init_name B with
    | Some n => n
    | None =>
        match name with
        | Some (String a s) => String a s
        | Some EmptyString | None => ("Distributed" ++ base_name B)%string
        end
    end in
  Forall (fun ev =>
            match ev with
            | PushPull _ sc d1 d2 cmp | PushPullXla _ sc d1 d2 cmp _ =>
                sc = name_scope B (name_of_wrapper ++ "_Push_Pull")%string /\
                d1 = dd /\ d2 = ds /\ cmp = c
            | Decompress cmp _ _ => cmp = c
            | _ => True
            end) (issued (_aggregate_gradients grads_and_vars) w).
Proof.
  intros w name_of_wrapper.
  assert (Hcfg : scope_of (self w)
                 = name_scope B (name_of_wrapper ++ "_Push_Pull")%string /\
                 _device_dense (self w) = dd /\ _device_sparse (self w) = ds /\
                 _compression (self w) = c).
  { subst w name_of_wrapper.
    unfold scope_of, create_distributed_optimizer, __init__, super___init__.
    destruct (super_init_name B); repeat split. }
  destruct Hcfg as (Hsc & Hdd & Hds & Hc).
  change (issued (_aggregate_gradients grads_and_vars) w)
    with (issued (bound (_push_pull (self w)) (map fst grads_and_vars)) w).
  pose proof (bound_calls_configured (_push_pull (self w))
                (map fst grads_and_vars) w) as H.
  rewrite Hsc, Hdd, Hds, Hc in H. exact H.
Qed.

(** On a base class like OptimizerV2 the [name] argument does not reach the
    scope, and the update step pushes the gradients once more. *)
Example scope_under_optimizer_v2 :
  filter collective
    (issued (@_aggregate_gradients (Fake.backend_v2 2 "0")
               [(Some (Tensor 5), tt)])
       (@create_distributed_optimizer (Fake.backend_v2 2 "0")
          (Some "mine"%string) tt tt tt false))
  = [@PushPull (Fake.backend_v2 2 "0") (Tensor 5) "SGD_Push_Pull/"%string
       tt tt tt].
Proof. reflexivity. Qed.

Example update_step_under_optimizer_v2 :
  let w := @invoke_all (Fake.backend_v2 2 "0")
             [@Aggregate_gradients (Fake.backend_v2 2 "0")
                [(Some (Tensor 5), tt)]]
             (@create_distributed_optimizer (Fake.backend_v2 2 "0")
                None tt tt tt false) in
  fst (@apply_gradients (Fake.backend_v2 2 "0") [(Some (Tensor 7), tt)] w)
  = inr 1 /\
  filter collective
    (issued (@apply_gradients (Fake.backend_v2 2 "0")
               [(Some (Tensor 7), tt)]) w)
  = [@PushPull (Fake.backend_v2 2 "0") (Tensor 7) "SGD_Push_Pull/"%string
       tt tt tt].
Proof. split; reflexivity. Qed.

(** * [load_model]: the objects handed to Keras *)

Section Dicts.
Context {V : Type}.

Lemma get_setitem (d : dict V) (k k' : string) (v : V) :
  get (setitem d k v) k' = if String.eqb k k' then Some v else get d k'.
Proof.
  induction d as [|[k0 v0] d IH]; simpl.
  - reflexivity.
  - destruct (String.eqb_spec k0 k) as [->|Hne]; simpl.
    + destruct (String.eqb_spec k k'); reflexivity.
    + rewrite IH. destruct (String.eqb_spec k0 k') as [->|Hne'];
        [|reflexivity].
      destruct (String.eqb_spec k k'); [congruence | reflexivity].
Qed.

Lemma get_update (d : dict V) (items : list (string * V)) (k : string) :
  get (update d items) k
  = match last_binding items k with
    | Some v => Some v
    | None => get d k
    end.
Proof.
  unfold update. revert d; induction items as [|[k0 v0] items IH];
    intros d; simpl; [reflexivity|].
  rewrite IH, get_setitem.
  destruct (last_binding items k); [reflexivity|].
  destruct (String.eqb k0 k); reflexivity.
Qed.

Lemma setitem_keys (d : dict V) (k k' : string) (v : V) :
  In k' (map fst (setitem d k v)) <-> k' = k \/ In k' (map fst d).
Proof.
  induction d as [|[k0 v0] d IH]; simpl.
  - intuition.
  - destruct (String.eqb_spec k0 k) as [->|Hne]; simpl; [intuition|].
    rewrite IH. intuition.
Qed.

Lemma setitem_NoDup (d : dict V) (k : string) (v : V) :
  NoDup (map fst d) -> NoDup (map fst (setitem d k v)).
Proof.
  induction d as [|[k0 v0] d IH]; simpl; intros Hnd.
  - constructor; [intros [] | constructor].
  - inversion Hnd as [|? ? Hnotin Hnd']; subst.
    destruct (String.eqb_spec k0 k) as [->|Hne]; simpl;
      constructor; auto.
    rewrite setitem_keys. intros [->|Hin]; contradiction.
Qed.

Lemma update_NoDup (d : dict V) (items : list (string * V)) :
  NoDup (map fst d) -> NoDup (map fst (update d items)).
Proof.
  unfold update. revert d; induction items as [|[k0 v0] items IH];
    intros d Hnd; simpl; [exact Hnd|].
  apply IH. now apply setitem_NoDup.
Qed.

Lemma get_none (d : dict V) (k : string) :
  get d k = None <-> ~ In k (map fst d).
Proof.
  induction d as [|[k0 v0] d IH]; simpl.
  - intuition.
  - destruct (String.eqb_spec k0 k) as [->|Hne].
    + split; [discriminate | intros H; elim H; now left].
    + rewrite IH. intuition.
Qed.

Lemma last_binding_none (items : list (string * V)) (k : string) :
  last_binding items k = None <-> ~ In k (map fst items).
Proof.
  induction items as [|[k0 v0] items IH]; simpl.
  - intuition.
  - destruct (last_binding items k) as [v|].
    + split; [discriminate|]. intros H. exfalso.
      assert (Hn : ~ In k (map fst items)) by tauto.
      apply IH in Hn. discriminate.
    + destruct (String.eqb_spec k0 k) as [->|Hne].
      * split; [discriminate | intros H; elim H; now left].
      * split; [|reflexivity]. intros _ [Heq|Hin]; [congruence|].
        now apply (proj1 IH).
Qed.

Lemma last_binding_dict (d : dict V) (k : string) :
  NoDup (map fst d) -> last_binding d k = get d k.
Proof.
  induction d as [|[k0 v0] d IH]; simpl; intros Hnd; [reflexivity|].
  inversion Hnd as [|? ? Hnotin Hnd']; subst.
  rewrite (IH Hnd'). destruct (String.eqb_spec k0 k) as [->|Hne].
  - now rewrite (proj2 (get_none d k) Hnotin).
  - destruct (get d k); reflexivity.
Qed.

Lemma get_in (d : dict V) (k : string) (v : V) :
  NoDup (map fst d) -> In (k, v) d -> get d k = Some v.
Proof.
  induction d as [|[k0 v0] d IH]; simpl; intros Hnd Hin; [destruct Hin|].
  inversion Hnd as [|? ? Hnotin Hnd']; subst.
  destruct Hin as [[= -> ->]|Hin].
  - now rewrite String.eqb_refl.
  - destruct (String.eqb_spec k0 k) as [->|Hne]; [|now apply IH].
    elim Hnotin. apply in_map_iff. now exists (k, v).
Qed.

Lemma last_binding_last (xs ys : list (string * V)) (k : string) (v : V) :
  ~ In k (map fst ys) -> last_binding (xs ++ (k, v) :: ys) k = Some v.
Proof.
  intros Hys. induction xs as [|[k0 v0] xs IH]; simpl.
  - rewrite (proj2 (last_binding_none ys k) Hys). now rewrite String.eqb_refl.
  - now rewrite IH.
Qed.

Lemma last_binding_some (items : list (string * V)) (k : string) :
  (exists v, last_binding items k = Some v) <-> In k (map fst items).
Proof.
  pose proof (last_binding_none items k) as H.
  destruct (last_binding items k) as [v|].
  - split; [intros _ | intros _; now exists v].
    destruct (in_dec string_dec k (map fst items)) as [Hin|Hn]; [exact Hin|].
    apply H in Hn. discriminate.
  - split; [intros [v Hv]; discriminate | intros Hin].
    exfalso. now apply (proj1 H).
Qed.

Lemma layered_some (a b c : option V) :
  (exists v, match a with
             | Some v => Some v
             | None => match b with Some v => Some v | None => c end
             end = Some v)
  <-> (exists v, c = Some v) \/ (exists v, b = Some v) \/ (exists v, a = Some v).
Proof.
  destruct a as [x|], b as [y|], c as [z|]; split;
    try (intros _; eauto; fail);
    try (intros [v Hv]; discriminate);
    try (intros [[v Hv]|[[v Hv]|[v Hv]]]; discriminate || eauto).
Qed.

Lemma comprehension_NoDup (items : list (string * V)) :
  NoDup (map fst (comprehension items)).
Proof. apply update_NoDup. constructor. Qed.

Lemma get_update_comprehension (d : dict V) items (k : string) :
  get (update d (comprehension items)) k
  = match last_binding items k with
    | Some v => Some v
    | None => get d k
    end.
Proof.
  rewrite get_update, last_binding_dict by apply comprehension_NoDup.
  unfold comprehension. rewrite get_update. simpl.
  destruct (last_binding items k); reflexivity.
Qed.
End Dicts.

Section LoadModelFacts.
Context {K : Keras}.

(** The three layers of [byteps_objects], the later over the earlier. *)
Lemma byteps_objects_get (wrap_optimizer : cls K -> object K)
    optimizer_modules custom_optimizers custom_objects (k : string) :
  get (byteps_objects wrap_optimizer optimizer_modules custom_optimizers
         custom_objects) k
  = match last_binding (match custom_objects with
                        | Some d => d
                        | None => []
                        end) k with
    | Some v => Some v
    | None =>
        match last_binding
                (map (fun c => (__name__ K c, wrap_optimizer c))
                     (match custom_optimizers with
                      | Some cs => cs
                      | None => []
                      end)) k with
        | Some v => Some v
        | None =>
            last_binding
              (map (fun c => (lower K (__name__ K c), wrap_optimizer c))
                   (filter (taken optimizer_modules) (__subclasses__ K))) k
        end
    end.
Proof.
  unfold byteps_objects.
  assert (Hbase : forall k,
             get (comprehension
                    (map (fun c => (lower K (__name__ K c), wrap_optimizer c))
                         (filter (fun subclass =>
                                    existsb (String.eqb (__module__ K subclass))
                                            optimizer_modules)
                                 (__subclasses__ K)))) k
             = last_binding
                 (map (fun c => (lower K (__name__ K c), wrap_optimizer c))
                      (filter (taken optimizer_modules) (__subclasses__ K))) k).
  { intros k0. unfold comprehension. rewrite get_update. simpl.
    unfold taken. destruct (last_binding _ k0); reflexivity. }
  destruct custom_objects as [d|], custom_optimizers as [cs|]; simpl.
  - now rewrite get_update, get_update_comprehension, Hbase.
  - now rewrite get_update, Hbase.
  - now rewrite get_update_comprehension, Hbase.
  - now rewrite Hbase.
Qed.
End LoadModelFacts.

Section LoadModelLayers.
Context {K : Keras}.

Lemma taken_in (optimizer_modules : list string) (c : cls K) :
  taken optimizer_modules c = true <-> In (__module__ K c) optimizer_modules.
Proof.
  unfold taken. rewrite existsb_exists. split.
  - intros (m & Hin & Heq). apply String.eqb_eq in Heq. now subst.
  - intros Hin. exists (__module__ K c). split; [exact Hin|].
    apply String.eqb_refl.
Qed.

Lemma keys_of_classes (f : cls K -> string) (wrap : cls K -> object K)
    (l : list (cls K)) (k : string) :
  In k (map fst (map (fun c => (f c, wrap c)) l))
  <-> exists c, In c l /\ f c = k.
Proof.
  rewrite map_map. simpl. rewrite in_map_iff. split.
  - intros (c & Heq & Hin). now exists c.
  - intros (c & Hin & Heq). now exists c.
Qed.
End LoadModelLayers.

(** X14.  An entry of [custom_objects] reaches Keras as it is: under its key
    [load_model] passes on its value, whatever optimizer, built in or
    custom, would have gone under the same key. *)
Theorem custom_objects_take_precedence (K : Keras)
    (wrap_optimizer : cls K -> object K) optimizer_modules custom_optimizers
    (custom_objects : dict (object K)) (k : string) (v : object K) :
  NoDup (map fst custom_objects) ->
  In (k, v) custom_objects ->
  get (byteps_objects wrap_optimizer optimizer_modules custom_optimizers
         (Some custom_objects)) k = Some v.
Proof.
  intros Hnd Hin. rewrite byteps_objects_get.
  now rewrite (last_binding_dict _ _ Hnd), (get_in _ _ _ Hnd Hin).
Qed.

Lemma custom_objects_take_precedence_witness :
  NoDup (map fst [("adam", "mine")])%string /\
  In ("adam", "mine")%string [("adam", "mine")%string] /\
  get (@byteps_objects FakeKeras.keras FakeKeras.wrap
         ["keras.optimizers"%string] None (Some [("adam", "mine")%string]))
      "adam" = Some "mine"%string /\
  get (@byteps_objects FakeKeras.keras FakeKeras.wrap
         ["keras.optimizers"%string] None None)
      "adam" = Some "DistributedAdam"%string.
Proof.
  assert (Hnd : NoDup (map fst [("adam", "mine")])%string)
    by (constructor; [intros [] | constructor]).
  assert (Hin : In ("adam", "mine")%string [("adam", "mine")%string])
    by (left; reflexivity).
  split; [exact Hnd|]. split; [exact Hin|]. split; [|reflexivity].
  exact (custom_objects_take_precedence FakeKeras.keras FakeKeras.wrap
           ["keras.optimizers"%string] None [("adam", "mine")%string]
           "adam" "mine" Hnd Hin).
Defined.

(** X15.  A custom optimizer goes under its class name as it is written,
    not lowered: under that key [load_model] passes on the wrapped class,
    for the last class of that name in [custom_optimizers], unless
    [custom_objects] has the key. *)
Theorem custom_optimizers_go_under_their_name (K : Keras)
    (wrap_optimizer : cls K -> object K) optimizer_modules
    (before after : list (cls K)) (c : cls K)
    (custom_objects : option (dict (object K))) :
  (forall c', In c' after -> __name__ K c' <> __name__ K c) ->
  (forall d, custom_objects = Some d -> ~ In (__name__ K c) (map fst d)) ->
  get (byteps_objects wrap_optimizer optimizer_modules
         (Some (before ++ c :: after)) custom_objects) (__name__ K c)
  = Some (wrap_optimizer c).
Proof.
  intros Hafter Hobj. rewrite byteps_objects_get.
  assert (Hd : last_binding (match custom_objects with
                             | Some d => d
                             | None => []
                             end) (__name__ K c) = None).
  { destruct custom_objects as [d|]; [|reflexivity].
    apply last_binding_none. now apply Hobj. }
  rewrite Hd, map_app. cbn [map]. rewrite last_binding_last; [reflexivity|].
  rewrite keys_of_classes. intros (c' & Hin & Heq). now apply (Hafter c').
Qed.

Lemma custom_optimizers_go_under_their_name_witness :
  get (@byteps_objects FakeKeras.keras FakeKeras.wrap
         ["keras.optimizers"%string]
         (Some ([] ++ ("Lamb", "my.optimizers")%string :: [])) None)
      "Lamb" = Some "DistributedLamb"%string /\
  get (@byteps_objects FakeKeras.keras FakeKeras.wrap
         ["keras.optimizers"%string]
         (Some ([] ++ ("Lamb", "my.optimizers")%string :: [])) None)
      "lamb" = None.
Proof.
  split; [|reflexivity].
  apply (custom_optimizers_go_under_their_name FakeKeras.keras FakeKeras.wrap
           ["keras.optimizers"%string] [] []
           ("Lamb", "my.optimizers")%string None).
  - intros c' [].
  - intros d Hd. discriminate Hd.
Defined.

(** X16.  A direct subclass of [keras.optimizers.Optimizer] whose module is
    in [optimizer_modules] goes under its lowered class name: under that key
    [load_model] passes on the wrapped class, for the last such subclass
    with that lowered name, unless a custom optimizer is named so or
    [custom_objects] has the key. *)
Theorem built_in_optimizers_go_under_their_lowered_name (K : Keras)
    (wrap_optimizer : cls K -> object K) optimizer_modules
    (before after : list (cls K)) (c : cls K)
    (custom_optimizers : option (list (cls K)))
    (custom_objects : option (dict (object K))) :
  __subclasses__ K = before ++ c :: after ->
  In (__module__ K c) optimizer_modules ->
  (forall c', In c' after -> In (__module__ K c') optimizer_modules ->
      lower K (__name__ K c') <> lower K (__name__ K c)) ->
  (forall cs c', custom_optimizers = Some cs -> In c' cs ->
      __name__ K c' <> lower K (__name__ K c)) ->
  (forall d, custom_objects = Some d ->
      ~ In (lower K (__name__ K c)) (map fst d)) ->
  get (byteps_objects wrap_optimizer optimizer_modules custom_optimizers
         custom_objects) (lower K (__name__ K c))
  = Some (wrap_optimizer c).
Proof.
  intros Hsub Hmod Hafter Hopt Hobj. rewrite byteps_objects_get.
  assert (Hd : last_binding (match custom_objects with
                             | Some d => d
                             | None => []
                             end) (lower K (__name__ K c)) = None).
  { destruct custom_objects as [d|]; [|reflexivity].
    apply last_binding_none. now apply Hobj. }
  assert (Hc : last_binding
                 (map (fun c => (__name__ K c, wrap_optimizer c))
                      (match custom_optimizers with
                       | Some cs => cs
                       | None => []
                       end)) (lower K (__name__ K c)) = None).
  { apply last_binding_none. rewrite keys_of_classes.
    intros (c' & Hin & Heq). destruct custom_optimizers as [cs|];
      [|destruct Hin].
    now apply (Hopt cs c'). }
  rewrite Hd, Hc, Hsub, filter_app. cbn [filter].
  rewrite (proj2 (taken_in optimizer_modules c) Hmod), map_app. cbn [map].
  rewrite last_binding_last; [reflexivity|].
  rewrite keys_of_classes. intros (c' & Hin & Heq).
  apply filter_In in Hin. destruct Hin as [Hin Ht].
  apply taken_in in Ht. now apply (Hafter c').
Qed.

Lemma built_in_optimizers_go_under_their_lowered_name_witness :
  __subclasses__ FakeKeras.keras
  = [("SGD", "keras.optimizers")%string]
    ++ ("Adam", "keras.optimizers")%string
    :: [("Ftrl", "keras.contrib")%string] /\
  get (@byteps_objects FakeKeras.keras FakeKeras.wrap
         ["keras.optimizers"%string] None None) "adam"
  = Some "DistributedAdam"%string /\
  get (@byteps_objects FakeKeras.keras FakeKeras.wrap
         ["keras.optimizers"%string] None None) "Adam" = None /\
  get (@byteps_objects FakeKeras.keras FakeKeras.wrap
         ["keras.optimizers"%string] None None) "ftrl" = None.
Proof.
  split; [reflexivity|]. split; [|split; reflexivity].
  apply (built_in_optimizers_go_under_their_lowered_name FakeKeras.keras
           FakeKeras.wrap ["keras.optimizers"%string]
           [("SGD", "keras.optimizers")%string]
           [("Ftrl", "keras.contrib")%string]
           ("Adam", "keras.optimizers")%string None None).
  - reflexivity.
  - left. reflexivity.
  - intros c' [<-|[]] _. discriminate.
  - intros cs c' Hcs. discriminate Hcs.
  - intros d Hd. discriminate Hd.
Defined.

(** X17.  The dict that [load_model] passes to Keras has a key exactly when
    the key is the lowered name of a direct subclass of
    [keras.optimizers.Optimizer] whose module is in [optimizer_modules], or
    the name of a custom optimizer, or a key of [custom_objects]: subclasses
    from other modules are left out, and nothing else is put in. *)
Theorem byteps_objects_keys (K : Keras)
    (wrap_optimizer : cls K -> object K) optimizer_modules custom_optimizers
    custom_objects (k : string) :
  (exists v,
      get (byteps_objects wrap_optimizer optimizer_modules custom_optimizers
             custom_objects) k = Some v)
  <-> (exists c, In c (__subclasses__ K) /\
                 In (__module__ K c) optimizer_modules /\
                 lower K (__name__ K c) = k)
      \/ (exists cs c, custom_optimizers = Some cs /\ In c cs /\
                       __name__ K c = k)
      \/ (exists d, custom_objects = Some d /\ In k (map fst d)).
Proof.
  rewrite byteps_objects_get, layered_some, !last_binding_some,
    !keys_of_classes.
  assert (Hobjs : In k (map fst match custom_objects with
                                 | Some d => d
                                 | None => []
                                 end)
                  <-> exists d, custom_objects = Some d /\ In k (map fst d)).
  { destruct custom_objects as [d|]; simpl.
    - split; [intros H; now exists d | intros (d' & [= <-] & H); exact H].
    - split; [intros [] | intros (d' & Hd & _); discriminate]. }
  assert (Hopts : (exists c, In c match custom_optimizers with
                                  | Some cs => cs
                                  | None => []
                                  end /\ __name__ K c = k)
                  <-> exists cs c, custom_optimizers = Some cs /\ In c cs /\
                                   __name__ K c = k).
  { destruct custom_optimizers as [cs|]; simpl.
    - split; [intros (c & H1 & H2); now exists cs, c
             |intros (cs' & c & [= <-] & H1 & H2); now exists c].
    - split; [intros (c & [] & _) | intros (cs' & c & Hd & _); discriminate]. }
  assert (Hsubs : (exists c, In c (filter (taken optimizer_modules)
                                           (__subclasses__ K)) /\
                             lower K (__name__ K c) = k)
                  <-> exists c, In c (__subclasses__ K) /\
                                In (__module__ K c) optimizer_modules /\
                                lower K (__name__ K c) = k).
  { split; intros (c & H1 & H2).
    - apply filter_In in H1. destruct H1 as [H1 Ht]. apply taken_in in Ht.
      now exists c.
    - destruct H2 as [H2 H3]. exists c. split; [|exact H3].
      apply filter_In. split; [exact H1 | now apply taken_in]. }
  split; (intros [H|[H|H]];
          [left; now apply Hsubs
          |right; left; now apply Hopts
          |right; right; now apply Hobjs]).
Qed.


(** X18.  The accelerated path prints every item of the list it is given,
    [None] included, one after the other and before anything else, whatever
    the size of the worker group; it prints nothing later, and the direct
    path prints nothing at all. *)
Theorem accelerated_path_prints_every_gradient (B : Backend)
    (grads : list (option (grad B))) (w : world B) :
  (exists rest,
      issued (_push_pull_xla grads) w = map Stdout grads ++ rest /\
      filter is_stdout rest = [])
  /\ filter is_stdout (issued (_push_pull_tf grads) w) = [].
Proof.
  destruct (Z.ltb_spec 1 (size B)) as [Hsize|Hsize]; split.
  - rewrite _push_pull_xla_issued, xla_request_calls_reached by assumption.
    unfold launch_calls. rewrite <- !app_assoc. eexists. split; [reflexivity|].
    rewrite xla_calls_positions, xla_conversion_converts, !filter_app.
    rewrite !(filter_none is_stdout (map _ _))
      by (apply Forall_forall; intros ev Hin; apply in_map_iff in Hin;
          destruct Hin as (x & <- & _); reflexivity).
    destruct (reached _ grads) as [rs|]; [|reflexivity].
    apply filter_none. eapply Forall_impl; [|apply block_calls_kinds].
    intros []; simpl; tauto.
  - rewrite _push_pull_tf_issued by assumption.
    apply filter_none, Forall_forall. intros ev Hin.
    apply in_flat_map in Hin. destruct Hin as ([g|] & _ & Hin);
      [|destruct Hin].
    simpl in Hin. apply in_app_or in Hin. destruct Hin as [Hin|[<-|[]]];
      [|reflexivity].
    unfold conversion in Hin. destruct (densified _ g); [|destruct Hin].
    destruct Hin as [<-|[]]. reflexivity.
  - rewrite (issued_add_marked _ w (map Stdout grads) (inr grads))
      by now apply _push_pull_xla_alone.
    exists []. now rewrite app_nil_r.
  - rewrite (issued_add_marked _ w [] (inr grads))
      by (rewrite add_calls_nil; now apply _push_pull_tf_alone).
    reflexivity.
Qed.
